(** * SeismicMesh: the DistMesh relaxation engine of [MeshGenerator.build]

    A shallow embedding of [src/SeismicMesh/generation/mesh_generator.py]
    (class [MeshGenerator], method [build]) and the properties its
    specification states about it.

    Conventions of the embedding:
    - a numpy array of shape [(n, dim)] is a [list (list F)], row major;
      a one-dimensional array is a [list F];
    - the scalar type [F] is abstract: [Arith] for the arithmetic and the
      comparisons, [Num] for what else [build] needs.  IEEE binary64
      ([float], the type numpy computes with) is an instance of both; the
      exact rationals ([Q]) are an instance of [Arith] and, once the
      roots are given, of [Num], for the order and field laws that
      rounding hides;
    - a Python exception is a value [Raise e] of the error monad [result];
    - the [while True] loop is a fuelled iteration of the loop body
      [iterate]; running out of fuel is the outcome [Running];
    - the signed-distance function [fd] and the sizing function [fh] are
      vectorised in Python (batch in, batch out, same order); here they act
      on one point and the batch call is [map];
    - the Delaunay back ends (scipy's qhull, the CGAL binding) and numpy's
      random generator are external and enter as parameters;
    - printing, timing and plotting are left out ([plot] is [False]). *)

From Stdlib Require Import List ZArith QArith Qminmax Qround Bool Lia Lqa PeanoNat Sorted.
From Stdlib Require Import PrimFloat FloatOps SpecFloat Uint63.
Import ListNotations.

Set Implicit Arguments.

(* A decimal literal denotes the nearest binary64 value, as in Python. *)
Set Warnings "-inexact-float".

(** ** Exceptions and the error monad *)

Inductive exn : Type :=
| ValueError_reshape      (* [reshape(-1, 2)] / [reshape(dim, -1)] of a wrong size *)
| ValueError_mgrid        (* [np.mgrid] with a size that is no natural number *)
| ValueError_vstack       (* [np.vstack] of rows of different widths *)
| ValueError_zero_size    (* [.max()] or [.min()] of a zero-size array *)
| ValueError_broadcast    (* operands could not be broadcast together *)
| IndexError              (* an index out of bounds *)
| UnboundLocalError       (* [t] or [bars] read before assignment *)
| ZeroDivisionError       (* [count % nscreen] with [nscreen = 0] *)
| BackendError.           (* raised inside a triangulation back end *)

Inductive result (A : Type) : Type :=
| Ok (a : A)
| Raise (e : exn).

Arguments Ok {A} a.
Arguments Raise {A} e.

Definition bind {A B : Type} (c : result A) (k : A -> result B) : result B :=
  match c with
  | Ok a => k a
  | Raise e => Raise e
  end.

Notation "x <- c ;; k" := (bind c (fun x => k))
  (at level 61, c at next level, right associativity).
Notation "' pat <- c ;; k" := (bind c (fun x => match x with pat => k end))
  (at level 61, pat pattern, c at next level, right associativity).

Fixpoint mapM {A B : Type} (f : A -> result B) (l : list A) : result (list B) :=
  match l with
  | [] => Ok []
  | a :: r => b <- f a ;; bs <- mapM f r ;; Ok (b :: bs)
  end.

(** ** Scalars *)

(** The arithmetic and comparisons of numpy's [float64]. *)
Class Arith (F : Type) : Type := {
  fzero : F;
  fadd : F -> F -> F;
  fsub : F -> F -> F;
  fmul : F -> F -> F;
  fdiv : F -> F -> F;
  fopp : F -> F;
  fltb : F -> F -> bool;
  feqb : F -> F -> bool
}.

(** What [build] needs beyond arithmetic: [np.sqrt], [x ** (1.0 / n)],
    [float("inf")], [math.ceil], the conversion of a Python [int], and the
    literals of lines 120-125. *)
Class Num (F : Type) : Type := {
  num_arith :: Arith F;
  fsqrt : F -> F;
  froot : nat -> F -> F;
  finf : F;
  fceil : F -> option Z;
  of_int : Z -> F;
  lit_0_001 : F;
  lit_0_1 : F;
  lit_0_4 : F;
  sqrt_eps : F
}.

Declare Scope num_scope.
Delimit Scope num_scope with num.
Infix "+." := fadd (at level 50, left associativity) : num_scope.
Infix "-." := fsub (at level 50, left associativity) : num_scope.
Infix "*." := fmul (at level 40, left associativity) : num_scope.
Infix "/." := fdiv (at level 40, left associativity) : num_scope.
Infix "<.?" := fltb (at level 70, no associativity) : num_scope.
Open Scope num_scope.

(** ** numpy on lists *)

Section Numpy.
Context {F : Type}.

Definition vec : Type := list F.
Definition point : Type := list F.

(** [a[mask]]: the rows of [a] where the boolean mask holds. *)
Fixpoint mask_select {A : Type} (m : list bool) (a : list A) : list A :=
  match m, a with
  | b :: m', x :: a' => if b then x :: mask_select m' a' else mask_select m' a'
  | _, _ => []
  end.

Fixpoint map2 {A B C : Type} (f : A -> B -> C) (a : list A) (b : list B) : list C :=
  match a, b with
  | x :: a', y :: b' => f x y :: map2 f a' b'
  | _, _ => []
  end.

(** [M[i] = v] on a list of rows; out of range leaves [M] as it is, callers
    check the index first. *)
Fixpoint set_row {A : Type} (i : nat) (v : A) (M : list A) : list A :=
  match M, i with
  | [], _ => []
  | _ :: r, O => v :: r
  | x :: r, S i' => x :: set_row i' v r
  end.

Context `{Arith F}.

Definition sq (x : F) : F := x *. x.

(** [a.sum()]: 0.0 on the empty array, else left to right. *)
Definition vsum (l : list F) : F :=
  match l with
  | [] => fzero
  | x :: r => fold_left fadd r x
  end.

(** A NaN is the only value that differs from itself. *)
Definition is_nan (x : F) : bool := negb (feqb x x).

(** [np.maximum] and [np.minimum] of two scalars: a NaN operand is the
    result. *)
Definition fmaximum (a b : F) : F :=
  if is_nan a then a else if is_nan b then b else if a <.? b then b else a.
Definition fminimum (a b : F) : F :=
  if is_nan a then a else if is_nan b then b else if b <.? a then b else a.

(** [a.max()] and [a.min()]: [ValueError] on a zero-size array, NaN as
    soon as one element is NaN. *)
Definition np_max (l : list F) : result F :=
  match l with
  | [] => Raise ValueError_zero_size
  | x :: r => Ok (fold_left fmaximum r x)
  end.

Definition np_min (l : list F) : result F :=
  match l with
  | [] => Raise ValueError_zero_size
  | x :: r => Ok (fold_left fminimum r x)
  end.

Definition vadd (a b : vec) : vec := map2 fadd a b.
Definition vsub (a b : vec) : vec := map2 fsub a b.
Definition vscale (c : F) (a : vec) : vec := map (fun x => c *. x) a.
Definition vneg (a : vec) : vec := map fopp a.
Definition zeros (n : nat) : vec := repeat fzero n.

(** Lexicographic comparison of two rows, as [np.unique(., axis=0)] orders
    them. *)
Fixpoint row_ltb (a b : vec) : bool :=
  match a, b with
  | x :: a', y :: b' => if x <.? y then true else if y <.? x then false else row_ltb a' b'
  | [], _ :: _ => true
  | _, _ => false
  end.

Fixpoint row_eqb (a b : vec) : bool :=
  match a, b with
  | [], [] => true
  | x :: a', y :: b' => feqb x y && row_eqb a' b'
  | _, _ => false
  end.

(** Insertion of a row into a sorted list of distinct rows. *)
Fixpoint insert_row (x : vec) (l : list vec) : list vec :=
  match l with
  | [] => [x]
  | y :: r =>
      if row_eqb x y then y :: r
      else if row_ltb x y then x :: y :: r
      else y :: insert_row x r
  end.

(** [np.unique(p, axis=0)]: the distinct rows of [p], sorted. *)
Definition np_unique (p : list vec) : list vec :=
  fold_right insert_row [] p.

End Numpy.

(** ** The collaborators of [build] *)

(** A simplex is a row of [t]: [dim + 1] zero-based indices into [p]; a bar
    is a row of [bars]. *)
Definition simplex : Type := list nat.
Definition bar : Type := (nat * nat)%type.

(** The [SizingFunction] object: [fd], [fh], [hmin] and the flat [bbox]
    [(xmin, xmax, ymin, ymax, ...)]. *)
Record SizingFunction (F : Type) : Type := {
  fd : list F -> F;
  fh : list F -> F;
  hmin : F;
  bbox : list F
}.

(** [self.method]. *)
Inductive method : Type :=
| Qhull
| Cgal
| OtherMethod.

(** [spspatial.Delaunay(p).vertices], [c_cgal.delaunay2], [c_cgal.delaunay3]. *)
Record Backends (F : Type) : Type := {
  qhull_delaunay : list (list F) -> result (list simplex);
  cgal_delaunay2 : list (list F) -> result (list simplex);
  cgal_delaunay3 : list (list F) -> result (list simplex)
}.

(** numpy's process-wide generator: [np.random.seed(s)] installs the state
    [rng_seed s]; [np.random.rand(n)] read in state [g] gives the variates
    [rng_draw g 0 .. rng_draw g (n-1)]. *)
Record Rng (F : Type) : Type := {
  rng_state : Type;
  rng_seed : Z -> rng_state;
  rng_draw : rng_state -> nat -> F
}.

(** [pold]: [float("inf")] before the first triangulation, then a copy of
    the point array. *)
Inductive snapshot (F : Type) : Type :=
| Scalar (x : F)
| Rows (q : list (list F)).

Arguments Scalar {F} x.
Arguments Rows {F} q.

(** The variables of the loop.  [t] and [bars] are unbound until the first
    retriangulation. *)
Record state (F : Type) : Type := {
  st_p : list (list F);
  st_pold : snapshot F;
  st_t : option (list simplex);
  st_bars : option (list bar);
  st_count : Z
}.

Inductive reason : Type :=
| Converged      (* step 8a *)
| Budget.        (* step 8b *)

Inductive step (F : Type) : Type :=
| Continue (s : state F)
| Break (r : reason) (s : state F).

Arguments Continue {F} s.
Arguments Break {F} r s.

(** The outcome of running the loop with some fuel. *)
Inductive run (F : Type) : Type :=
| Returned (r : reason) (s : state F)
| Raised (e : exn)
| Running (s : state F).

Arguments Returned {F} r s.
Arguments Raised {F} e.
Arguments Running {F} s.

(** ** Bars: step 4 (integer indices only) *)

(** [t[:, [i, j]]]. *)
Definition columns (i j : nat) (t : list simplex) : result (list bar) :=
  mapM (fun s =>
          match nth_error s i, nth_error s j with
          | Some a, Some b => Ok (a, b)
          | _, _ => Raise IndexError
          end) t.

(** [np.sort(bars, axis=1)] on one row. *)
Definition sort_pair (b : bar) : bar := (Nat.min (fst b) (snd b), Nat.max (fst b) (snd b)).

Definition bar_eqb (a b : bar) : bool :=
  Nat.eqb (fst a) (fst b) && Nat.eqb (snd a) (snd b).

(** Modelled from the spec: [mutils.unique_rows], defined in the module
    [generation/utils.py], whose source is not available.  The
    specification describes the bar set as obtained "by sorting each pair
    and removing duplicates": every row is kept once, at its first
    occurrence. *)
Fixpoint unique_rows (bs : list bar) : list bar :=
  match bs with
  | [] => []
  | b :: r => b :: filter (fun c => negb (bar_eqb b c)) (unique_rows r)
  end.

(** Lines 176-190. *)
Definition make_bars (dim : nat) (t : list simplex) : result (list bar) :=
  match dim with
  | 2%nat =>
      b01 <- columns 0 1 t ;; b12 <- columns 1 2 t ;; b20 <- columns 2 0 t ;;
      Ok (unique_rows (map sort_pair (b01 ++ b12 ++ b20)))
  | 3%nat =>
      b01 <- columns 0 1 t ;; b12 <- columns 1 2 t ;; b20 <- columns 2 0 t ;;
      b03 <- columns 0 3 t ;; b13 <- columns 1 3 t ;; b23 <- columns 2 3 t ;;
      Ok (unique_rows (map sort_pair (b01 ++ b12 ++ b20 ++ b03 ++ b13 ++ b23)))
  | _ => Raise UnboundLocalError
  end.

(** ** The numerical kernels of the loop body (arithmetic only) *)

Section Kernels.
Context {F : Type} `{Arith F}.

(** Line 214-215: [F = L0 - L; F[F < 0] = 0]. *)
Definition bar_force (L0 L : F) : F :=
  let f := L0 -. L in
  if f <.? fzero then fzero else f.

Definition bar_forces (L0 L : list F) : list F := map2 bar_force L0 L.

(** Line 216-218: [F[:, None] / L[:, None].dot(np.ones((1, dim))) * barvec],
    one row of it. *)
Definition force_vector (f l : F) (barvec : list F) : list F :=
  map (fun c => (f /. l) *. c) barvec.

(** Line 233-236: [deps_vec(i)], a list of length [dim]. *)
Definition deps_vec (dim : nat) (deps : F) (i : nat) : list F :=
  map (fun j => if Nat.eqb j i then deps else fzero) (seq 0 dim).

(** Line 238, for one violating point [pt] with signed distance [d]:
    the forward differences [(fd(pt + deps_vec(i)) - d) / deps]. *)
Definition dgrads (fd : list F -> F) (dim : nat) (deps : F) (pt : list F) (d : F) : list F :=
  map (fun i => (fd (vadd pt (deps_vec dim deps i)) -. d) /. deps) (seq 0 dim).

(** Line 239: Python's [sum], which starts from [0]. *)
Definition dgrad2_raw (g : list F) : F := fold_left fadd (map sq g) fzero.

(** Line 240: [np.where(dgrad2 < deps, deps, dgrad2)]. *)
Definition clamp (deps g2 : F) : F := if g2 <.? deps then deps else g2.

(** Line 241, one row: [pt - d * dgrads / dgrad2]. *)
Definition project_point (fd : list F -> F) (dim : nat) (deps : F) (pt : list F) (d : F) : list F :=
  let g := dgrads fd dim deps pt d in
  let g2 := clamp deps (dgrad2_raw g) in
  vsub pt (map (fun gi => (d *. gi) /. g2) g).

(** Lines 229-241: [d = fd(p)]; the rows with [d > 0] are projected, the
    others are left as they are.  The distances [d] are those before the
    projection; they are what step 8a reads. *)
Definition project (fd : list F -> F) (dim : nat) (deps : F) (p : list (list F))
  : list (list F) * list F :=
  let d := map fd p in
  let ix := map (fun x => fzero <.? x) d in
  if existsb (fun b => b) ix
  then (map2 (fun pt x => if fzero <.? x then project_point fd dim deps pt x else pt) p d, d)
  else (p, d).

(** Line 244, the array under [.max()]: the rows of [Ftot] whose point has
    [d < -geps]. *)
Definition interior_rows (geps : F) (Ftot : list (list F)) (d : list F) : list (list F) :=
  mask_select (map (fun x => x <.? fopp geps) d) Ftot.

End Kernels.

(** ** [build] *)

Section Build.
Context {F : Type} `{Num F}.

Variable sf : SizingFunction F.
Variable backends : Backends F.
Variable _method : method.

(** [x ** n] for a Python [int] [n]. *)
Fixpoint fpow (x : F) (n : nat) : F :=
  match n with
  | O => of_int 1
  | 1%nat => x
  | S m => fpow x m *. x
  end.

(** [np.sqrt((a ** 2).sum(1))] on one row. *)
Definition norm (a : list F) : F := fsqrt (vsum (map sq a)).

(** Lines 102-106 and 117-125. *)
Definition h0 : F := hmin sf.
Definition dim : nat := Nat.div (length (bbox sf)) 2.
Definition ptol : F := lit_0_001.
Definition ttol : F := lit_0_1.
Definition L0mult : F := of_int 1 +. lit_0_4 /. of_int (2 ^ (Z.of_nat dim - 1)).
Definition deltat : F := lit_0_1.
Definition geps : F := lit_0_1 *. h0.
Definition deps : F := sqrt_eps *. h0.

(** Line 118: [np.array(bbox).reshape(-1, 2)]. *)
Fixpoint bbox_pairs (b : list F) : result (list (F * F)) :=
  match b with
  | [] => Ok []
  | lo :: hi :: r => ps <- bbox_pairs r ;; Ok ((lo, hi) :: ps)
  | [_] => Raise ValueError_reshape
  end.

(** One axis of [np.mgrid[slice(min, max + h0, h0)]]: numpy takes
    [int(math.ceil((stop - start) / step))] samples [i * step + start]. *)
Definition mgrid_axis (lohi : F * F) : result (list F) :=
  let '(lo, hi) := lohi in
  match fceil (((hi +. h0) -. lo) /. h0) with
  | None => Raise ValueError_mgrid
  | Some n =>
      if (n <? 0)%Z then Raise ValueError_mgrid
      else Ok (map (fun i => of_int (Z.of_nat i) *. h0 +. lo) (seq 0 (Z.to_nat n)))
  end.

(** [p.reshape(dim, -1).T]: all grid nodes, the first axis the slowest. *)
Fixpoint grid (axes : list (list F)) : list (list F) :=
  match axes with
  | [] => [[]]
  | ax :: rest => flat_map (fun x => map (cons x) (grid rest)) ax
  end.

(** Lines 135-136. *)
Definition lattice : result (list (list F)) :=
  pairs <- bbox_pairs (bbox sf) ;;
  match pairs with
  | [] => Raise ValueError_reshape
  | _ => axes <- mapM mgrid_axis pairs ;; Ok (grid axes)
  end.

(** Lines 127-132 and the shape test of [np.vstack]: every row of [pfix]
    must have [dim] columns. *)
Definition fixed_points (pfix : option (list (list F))) : result (list (list F)) :=
  match pfix with
  | None => Ok []
  | Some [] => Raise ValueError_vstack
  | Some rows =>
      if forallb (fun r => Nat.eqb (length r) dim) rows then Ok rows
      else Raise ValueError_vstack
  end.

Definition nfix_of (pfix : option (list (list F))) : nat :=
  match pfix with
  | None => 0%nat
  | Some rows => length rows
  end.

(** Lines 134-144: the initial point set; [rand] is [np.random.rand]. *)
Definition seed_points (pfix : option (list (list F))) (rand : nat -> F)
  : result (list (list F)) :=
  p <- lattice ;;
  let p := filter (fun x => fd sf x <.? geps) p in
  let r0 := map (fh sf) p in
  rmin <- np_min r0 ;;
  let keep := map2 (fun u r => u <.? (fpow rmin dim /. fpow r dim))
                   (map rand (seq 0 (length p))) r0 in
  fixed <- fixed_points pfix ;;
  Ok (fixed ++ mask_select keep p).

(** Line 154-155: [dist(p, pold)], with numpy's broadcasting of a scalar
    [pold]. *)
Definition dist (p : list (list F)) (pold : snapshot F) : result (list F) :=
  match pold with
  | Scalar x => Ok (map (fun row => fsqrt (vsum (map (fun c => sq (c -. x)) row))) p)
  | Rows q =>
      if Nat.eqb (length p) (length q)
      then Ok (map2 (fun a b => norm (vsub a b)) p q)
      else Raise ValueError_broadcast
  end.

(** Line 158: [(dist(p, pold) / h0).max() > ttol]. *)
Definition moved_far (p : list (list F)) (pold : snapshot F) : result bool :=
  ds <- dist p pold ;;
  m <- np_max (map (fun x => x /. h0) ds) ;;
  Ok (ttol <.? m).

(** Lines 162-170.  [None]: no branch assigns [t], which keeps its former
    binding. *)
Definition delaunay (p : list (list F)) : option (result (list simplex)) :=
  match _method with
  | Qhull => Some (qhull_delaunay backends p)
  | Cgal =>
      match dim with
      | 2%nat => Some (cgal_delaunay2 backends p)
      | 3%nat => Some (cgal_delaunay3 backends p)
      | _ => None
      end
  | OtherMethod => None
  end.

(** [p[s]] for one row [s] of indices. *)
Definition gather (p : list (list F)) (s : list nat) : result (list (list F)) :=
  mapM (fun i => match nth_error p i with
                 | Some x => Ok x
                 | None => Raise IndexError
                 end) s.

(** [.sum(1)] over the vertices of one simplex. *)
Definition sum_rows (rows : list (list F)) : list F :=
  match rows with
  | [] => zeros dim
  | r :: rs => fold_left vadd rs r
  end.

(** Line 172, one row: [p[s].sum(0) / (dim + 1)]. *)
Definition centroid (p : list (list F)) (s : simplex) : result (list F) :=
  rows <- gather p s ;;
  Ok (map (fun c => c /. of_int (Z.of_nat dim + 1)) (sum_rows rows)).

(** Line 173: [t[fd(pmid) < -geps]]. *)
Definition interior_simplices (p : list (list F)) (t : list simplex) : result (list simplex) :=
  pmid <- mapM (centroid p) t ;;
  Ok (mask_select (map (fun c => fd sf c <.? fopp geps) pmid) t).

(** Lines 158-190: step 3 and step 4. *)
Definition retriangulate (s : state F) : result (state F) :=
  far <- moved_far (st_p s) (st_pold s) ;;
  if far then
    let p := np_unique (st_p s) in
    t <- match delaunay p with
         | Some r => r
         | None => match st_t s with
                   | Some t => Ok t
                   | None => Raise UnboundLocalError
                   end
         end ;;
    t <- interior_simplices p t ;;
    bars <- make_bars dim t ;;
    Ok {| st_p := p; st_pold := Rows p; st_t := Some t; st_bars := Some bars;
          st_count := st_count s |}
  else Ok s.

(** Modelled from the spec: [mutils.dense], defined in the module
    [generation/utils.py], whose source is not available.  The
    specification describes it as a scatter-add: "initialize a zero vector
    of length N*dim, iterate bars, add/subtract the bar's force vector at
    each endpoint's offset".  Here [acc] is the accumulator so far. *)
Definition add_at (i : nat) (v : list F) (acc : list (list F)) : result (list (list F)) :=
  match nth_error acc i with
  | Some r => Ok (set_row i (vadd r v) acc)
  | None => Raise IndexError
  end.

Fixpoint dense (bars : list bar) (Fvec : list (list F)) (acc : list (list F))
  : result (list (list F)) :=
  match bars, Fvec with
  | (a, b) :: bars', v :: Fvec' =>
      acc <- add_at a v acc ;;
      acc <- add_at b (vneg v) acc ;;
      dense bars' Fvec' acc
  | _, _ => Ok acc
  end.

(** Line 225: [Ftot[:nfix] = 0]. *)
Fixpoint zero_prefix (n : nat) (Ftot : list (list F)) : list (list F) :=
  match n, Ftot with
  | S n', _ :: r => zeros dim :: zero_prefix n' r
  | _, _ => Ftot
  end.

(** Lines 206-225: the total force on every point. *)
Definition total_force (N nfix : nat) (p : list (list F)) (bars : list bar)
  : result (list (list F)) :=
  ends <- mapM (fun b : bar => a <- gather p [fst b; snd b] ;;
                         match a with
                         | [x; y] => Ok (x, y)
                         | _ => Raise IndexError
                         end) bars ;;
  let barvec := map (fun xy => vsub (fst xy) (snd xy)) ends in
  let L := map norm barvec in
  let hbars := map (fun xy => fh sf (map (fun c => c /. of_int 2) (vadd (fst xy) (snd xy)))) ends in
  let scale := froot dim (vsum (map (fun l => fpow l dim) L)
                          /. vsum (map (fun h => fpow h dim) hbars)) in
  let L0 := map (fun h => h *. L0mult *. scale) hbars in
  let Fs := bar_forces L0 L in
  let Fvec := map2 (fun fl v => force_vector (fst fl) (snd fl) v) (combine Fs L) barvec in
  Ftot <- dense bars Fvec (repeat (zeros dim) N) ;;
  Ok (zero_prefix nfix Ftot).

(** Line 226: [p += deltat * Ftot]; the two arrays must have as many rows. *)
Definition update (p Ftot : list (list F)) : result (list (list F)) :=
  if Nat.eqb (length p) (length Ftot)
  then Ok (map2 (fun x f => vadd x (vscale deltat f)) p Ftot)
  else Raise ValueError_broadcast.

(** Line 244: [deltat * np.sqrt((Ftot[d < -geps] ** 2).sum(1)).max()]. *)
Definition max_displacement (Ftot : list (list F)) (d : list F) : result F :=
  m <- np_max (map norm (interior_rows geps Ftot d)) ;;
  Ok (deltat *. m).

Variable max_iter : Z.
Variable nscreen : Z.
Variable N : nat.
Variable nfix : nat.

(** Lines 205-226 and 228-241: the new positions, with the forces and the
    distances that step 8a reads. *)
Definition advance (s : state F) : result (state F * list (list F) * list F) :=
  s1 <- retriangulate s ;;
  bars <- match st_bars s1 with
          | Some b => Ok b
          | None => Raise UnboundLocalError
          end ;;
  Ftot <- total_force N nfix (st_p s1) bars ;;
  p <- update (st_p s1) Ftot ;;
  let '(p, d) := project (fd sf) dim deps p in
  Ok ({| st_p := p; st_pold := st_pold s1; st_t := st_t s1; st_bars := st_bars s1;
         st_count := st_count s1 |}, Ftot, d).

(** Lines 243-264: the two exits of the loop. *)
Definition check (s : state F) (Ftot : list (list F)) (d : list F) : result (step F) :=
  maxdp <- max_displacement Ftot d ;;
  if (nscreen =? 0)%Z then Raise ZeroDivisionError
  else if maxdp <.? ptol *. h0 then Ok (Break Converged s)
  else if (st_count s =? max_iter - 1)%Z then Ok (Break Budget s)
  else Ok (Continue {| st_p := st_p s; st_pold := st_pold s; st_t := st_t s;
                       st_bars := st_bars s; st_count := st_count s + 1 |}).

(** The body of [while True]. *)
Definition iterate (s : state F) : result (step F) :=
  '(s1, Ftot, d) <- advance s ;;
  check s1 Ftot d.

Fixpoint loop (fuel : nat) (s : state F) : run F :=
  match fuel with
  | O => Running s
  | S fuel' =>
      match iterate s with
      | Raise e => Raised e
      | Ok (Break r s') => Returned r s'
      | Ok (Continue s') => loop fuel' s'
      end
  end.

End Build.

Section Entry.
Context {F : Type} `{Num F}.

(** Lines 146-147: [count = 0], [pold = float("inf")], [t] and [bars] not
    yet bound. *)
Definition initial_state (p : list (list F)) : state F :=
  {| st_p := p; st_pold := Scalar finf; st_t := None; st_bars := None; st_count := 0 |}.

(** [build], up to its [return]: lines 109-112 install the seed, lines
    134-144 seed the points, line 151 enters the loop.  [g] is the state
    of numpy's generator when [build] is called. *)
Definition run_build (sf : SizingFunction F) (backends : Backends F) (m : method)
    (R : Rng F) (g : rng_state R)
    (pfix : option (list (list F))) (max_iter nscreen : Z) (seed : option Z)
    (fuel : nat) : run F :=
  let g := match seed with
           | Some s => rng_seed R s
           | None => g
           end in
  match seed_points sf pfix (rng_draw R g) with
  | Raise e => Raised e
  | Ok p => loop sf backends m max_iter nscreen (length p) (nfix_of pfix) fuel (initial_state p)
  end.

(** What a call of [build] gives: the pair [(p, t)] of line 267, an
    exception, or nothing yet when the fuel is spent. *)
Inductive outcome : Type :=
| Return (p : list (list F)) (t : list simplex)
| Error (e : exn)
| Unfinished.

Definition build (sf : SizingFunction F) (backends : Backends F) (m : method)
    (R : Rng F) (g : rng_state R)
    (pfix : option (list (list F))) (max_iter nscreen : Z) (seed : option Z)
    (fuel : nat) : outcome :=
  match run_build sf backends m R g pfix max_iter nscreen seed fuel with
  | Returned _ s =>
      match st_t s with
      | Some t => Return (st_p s) t
      | None => Error UnboundLocalError
      end
  | Raised e => Error e
  | Running _ => Unfinished
  end.

End Entry.

(** ** The two scalar instances *)

(** [math.ceil] of a binary64 value, exactly, from its sign, mantissa and
    exponent. *)
Definition float_ceil (x : float) : option Z :=
  match Prim2SF x with
  | S754_zero _ => Some 0%Z
  | S754_infinity _ => None
  | S754_nan => None
  | S754_finite s m e =>
      let v := if s then Z.neg m else Z.pos m in
      if (0 <=? e)%Z then Some (v * 2 ^ e)%Z
      else Some (- ((- v) / 2 ^ (- e)))%Z
  end.

(** A Python [int] as a [float64]; exact below [2^53]. *)
Definition float_of_int (z : Z) : float :=
  if (z <? 0)%Z then PrimFloat.opp (PrimFloat.of_uint63 (Uint63.of_Z (- z)))
  else PrimFloat.of_uint63 (Uint63.of_Z z).

Definition float_arith : Arith float := {|
  fzero := PrimFloat.zero;
  fadd := PrimFloat.add;
  fsub := PrimFloat.sub;
  fmul := PrimFloat.mul;
  fdiv := PrimFloat.div;
  fopp := PrimFloat.opp;
  fltb := PrimFloat.ltb;
  feqb := PrimFloat.eqb
|}.

(** IEEE binary64.  [x ** (1.0 / n)] is libm's [pow], which the primitive
    floats do not provide: the instance takes it as [root]. *)
#[warnings="-inexact-float"]
Definition float_num (root : nat -> float -> float) : Num float := {|
  num_arith := float_arith;
  fsqrt := PrimFloat.sqrt;
  froot := root;
  finf := PrimFloat.infinity;
  fceil := float_ceil;
  of_int := float_of_int;
  lit_0_001 := 0.001%float;
  lit_0_1 := 0.1%float;
  lit_0_4 := 0.4%float;
  sqrt_eps := 0x1p-26%float
|}.

(** In dimension 2 the root is a square root. *)
Definition sqrt_root (n : nat) (x : float) : float := PrimFloat.sqrt x.

Definition Qltb (x y : Q) : bool := negb (Qle_bool y x).

(** Exact rational arithmetic: the laws of an ordered field, without
    rounding. *)
#[export] Instance Q_arith : Arith Q := {
  fzero := 0%Q;
  fadd := Qplus;
  fsub := Qminus;
  fmul := Qmult;
  fdiv := Qdiv;
  fopp := Qopp;
  fltb := Qltb;
  feqb := Qeq_bool
}.

(** ** Concrete inputs *)

(** binary64 with the square root for [x ** (1.0 / 2)]: every input below
    is two-dimensional. *)
#[export] Instance fl : Num float := float_num sqrt_root.

(** A generator whose variates are all [0.5]. *)
Definition half_rng : Rng float :=
  {| rng_state := unit; rng_seed := fun _ => tt; rng_draw := fun _ _ => 0.5%float |}.

(** A back end that answers with the triangulation [t] whatever the points
    are. *)
Definition fixed_backend (t : list simplex) : Backends float :=
  {| qhull_delaunay := fun _ => Ok t;
     cgal_delaunay2 := fun _ => Ok t;
     cgal_delaunay3 := fun _ => Ok t |}.

Definition coord (i : nat) (p : list float) : float := nth i p PrimFloat.zero.

Definition float_min (a b : float) : float := if PrimFloat.ltb b a then b else a.

(** The unit square [0,1] x [0,1]: [-min(min(min(y, 1 - y), x), 1 - x)]. *)
Definition unit_square (p : list float) : float :=
  PrimFloat.opp
    (float_min (float_min (float_min (coord 1 p) (PrimFloat.sub 1 (coord 1 p))) (coord 0 p))
               (PrimFloat.sub 1 (coord 0 p))).

(** The half plane [x <= 1]. *)
Definition half_plane (p : list float) : float := PrimFloat.sub (coord 0 p) 1.

(** The two half planes [|x| >= 1], a domain that is not convex. *)
Definition two_half_planes (p : list float) : float :=
  PrimFloat.sub 1 (PrimFloat.abs (coord 0 p)).

(** The unit square with a uniform size [h]. *)
Definition square_sizing (h : float) : SizingFunction float :=
  {| fd := unit_square; fh := fun _ => h; hmin := h; bbox := [0; 1; 0; 1]%float |}.

(** The four corners of the unit square split along one diagonal; with a
    fifth point inside, the four triangles around it. *)
Definition two_triangles : list simplex := [[0; 1; 2]; [1; 3; 2]]%nat.
Definition four_triangles : list simplex := [[0; 1; 2]; [0; 2; 3]; [1; 2; 4]; [2; 3; 4]]%nat.

(** The 3 x 3 lattice of the unit square, numbered row by row from [(0,0)]:
    eight triangles, the diagonal of every cell avoiding the centre 4. *)
Definition eight_triangles : list simplex :=
  [[0; 1; 3]; [1; 4; 3]; [1; 2; 5]; [1; 5; 4];
   [3; 4; 7]; [3; 7; 6]; [4; 5; 7]; [5; 8; 7]]%nat.

(** The half plane [x <= 1] seen through the box [0,1] x [0,1], size 1. *)
Definition half_plane_sizing : SizingFunction float :=
  {| fd := half_plane; fh := fun _ => 1%float; hmin := 1%float; bbox := [0; 1; 0; 1]%float |}.

(** The domain [|x| >= 1] with size 1, seen through a box that holds the
    two lattice nodes [(1.75, 0)] and [(1.75, 1)]. *)
Definition gap_sizing : SizingFunction float :=
  {| fd := two_half_planes; fh := fun _ => 1%float; hmin := 1%float;
     bbox := [1.75; 1.75; 0; 1]%float |}.

(** A domain with no point inside. *)
Definition nowhere_sizing : SizingFunction float :=
  {| fd := fun _ => 1%float; fh := fun _ => 1%float; hmin := 1%float;
     bbox := [0; 1; 0; 1]%float |}.

(** [fd] evaluated at the centroid of the simplex [s] for the positions
    [p]. *)
Definition centroid_distance `{Num float} (sf : SizingFunction float)
    (p : list (list float)) (s : simplex) : result float :=
  c <- centroid sf p s ;; Ok (fd sf c).

(** ** The convergence test as the specification words it *)

Section Claimed.
Context {F : Type} `{Num F}.
Variable sf : SizingFunction F.

(** "Interior points (signed distance below the geometric epsilon, i.e.,
    excluding points sitting at/near the boundary)": the points that lie
    more than [geps] inside the domain, [d < -geps], each with its
    displacement [dt * |F|]. *)
Definition claimed_interior_moves (Ftot : list (list F)) (d : list F) : list F :=
  map (fun rx => deltat *. norm (fst rx))
      (filter (fun rx => snd rx <.? fopp (geps sf)) (combine Ftot d)).

(** "If this maximum is below ptol * h0": there is an interior point, so
    that the maximum exists, and every interior point moves by less than
    [ptol * h0]. *)
Definition claimed_converged (Ftot : list (list F)) (d : list F) : bool :=
  match claimed_interior_moves Ftot d with
  | [] => false
  | moves => forallb (fun mv => mv <.? ptol *. h0 sf) moves
  end.

End Claimed.

(** ** The invariant of the loop *)

Section Invariant.
Context {F : Type} `{Num F}.
Variable sf : SizingFunction F.

(** The simplices that line 173 keeps, with respect to the points [p]. *)
Definition kept_by_filter (p : list (list F)) (t : list simplex) : Prop :=
  forall s, In s t ->
  exists c, centroid sf p s = Ok c /\ (fd sf c <.? fopp (geps sf)) = true.

(** What links [pold], [t] and [bars] all along the loop. *)
Definition triangulated (s : state F) : Prop :=
  exists q t bars,
    st_pold s = Rows q /\ st_t s = Some t /\ st_bars s = Some bars /\ kept_by_filter q t.

(** The positions after line 226 when every force is zero. *)
Definition moved_by_zero (p : list (list F)) : list (list F) :=
  map (fun x => vadd x (vscale deltat (zeros (dim sf)))) p.

End Invariant.

(** ** Exact arithmetic for the whole of [build] *)

(** The rationals as a [Num]: [math.ceil] is exact and the literals are the
    decimal fractions they are written as.  A square root, a [dim]-th root
    and an infinity have no rational counterpart: they are parameters, and
    what is proved with this instance holds for every choice of them.
    Division by zero gives zero here, so that statements made with this
    instance assume [h0 > 0] where they divide by it. *)
Definition Q_num (sqrtQ : Q -> Q) (rootQ : nat -> Q -> Q) (infQ : Q) : Num Q := {|
  num_arith := Q_arith;
  fsqrt := sqrtQ;
  froot := rootQ;
  finf := infQ;
  fceil := fun x => Some (Qceiling x);
  of_int := inject_Z;
  lit_0_001 := 1 # 1000;
  lit_0_1 := 1 # 10;
  lit_0_4 := 4 # 10;
  sqrt_eps := 1 # (2 ^ 26)
|}.

(** The unit square of [unit_square] and the back end of [fixed_backend],
    for the rationals. *)
Definition unit_square_Q (p : list Q) : Q :=
  (- Qmin (Qmin (Qmin (nth 1 p 0) (1 - nth 1 p 0)) (nth 0 p 0)) (1 - nth 0 p 0))%Q.

Definition square_sizing_Q (h : Q) : SizingFunction Q :=
  {| fd := unit_square_Q; fh := fun _ => h; hmin := h; bbox := [0; 1; 0; 1]%Q |}.

Definition fixed_backend_Q (t : list simplex) : Backends Q :=
  {| qhull_delaunay := fun _ => Ok t;
     cgal_delaunay2 := fun _ => Ok t;
     cgal_delaunay3 := fun _ => Ok t |}.

(** An instance to evaluate with: the roots are the identity, [1000]
    stands for infinity. *)
Definition plain_Q : Num Q := Q_num (fun x => x) (fun _ x => x) 1000.

(** The 3 x 3 lattice of the unit square, in the order of
    [eight_triangles]. *)
Definition lattice_3x3_Q : list (list Q) :=
  [[0; 0]; [0; 1 # 2]; [0; 1]; [1 # 2; 0]; [1 # 2; 1 # 2]; [1 # 2; 1];
   [1; 0]; [1; 1 # 2]; [1; 1]]%Q.

(** Two rows with equal coordinates. *)
Definition row_eq (a b : list Q) : Prop := Forall2 Qeq a b.

(** The order in which [np.unique] leaves the rows. *)
Definition row_lt {F : Type} `{Arith F} (a b : list F) : Prop := row_ltb a b = true.

(** The shapes that hold together once an iteration has gone through:
    [p] and [pold] have the [N] rows that were seeded, the dimension and
    the method are supported ones, every simplex has at least [dim + 1]
    vertices and, like every bar, only names rows of [p]. *)
Definition mesh_shaped {F : Type} `{Num F} (sf : SizingFunction F) (m : method) (N : nat)
    (s : state F) : Prop :=
  length (st_p s) = N /\
  (dim sf = 2%nat \/ dim sf = 3%nat) /\
  m <> OtherMethod /\
  exists q t bars,
    st_pold s = Rows q /\ length q = N /\ st_t s = Some t /\ st_bars s = Some bars /\
    (forall x, In x t -> (dim sf < length x)%nat /\ forall i, In i x -> (i < N)%nat) /\
    (forall b, In b bars -> (fst b < N)%nat /\ (snd b < N)%nat).

(** The state before the first iteration, or a shaped one. *)
Definition started_or_shaped {F : Type} `{Num F} (sf : SizingFunction F) (m : method)
    (N : nat) (s : state F) : Prop :=
  mesh_shaped sf m N s \/ (st_t s = None /\ st_bars s = None).

(** * Properties *)

Lemma bind_Ok {A B : Type} (c : result A) (k : A -> result B) (b : B) :
  bind c k = Ok b -> exists a, c = Ok a /\ k a = Ok b.
Proof.
  destruct c as [a|e]; simpl; intros E; [exists a; auto | discriminate].
Qed.

Ltac inv_bind E :=
  let a := fresh "a" in
  let Ea := fresh "E" a in
  apply bind_Ok in E; destruct E as [a [Ea E]].

Lemma mapM_In {A B : Type} (f : A -> result B) (l : list A) (bs : list B) :
  mapM f l = Ok bs -> forall b, In b bs -> exists a, In a l /\ f a = Ok b.
Proof.
  revert bs; induction l as [|a r IH]; intros bs E b Hb; simpl in E.
  - inversion E; subst; destruct Hb.
  - inv_bind E. inv_bind E. inversion E; subst bs; clear E.
    destruct Hb as [<- | Hb].
    + exists a; split; [left; reflexivity | assumption].
    + destruct (IH _ Ea1 _ Hb) as [a' [Hin Hf]].
      exists a'; split; [right; assumption | assumption].
Qed.

Lemma mapM_length {A B : Type} (f : A -> result B) (l : list A) (bs : list B) :
  mapM f l = Ok bs -> length bs = length l.
Proof.
  revert bs; induction l as [|a r IH]; intros bs E; simpl in E.
  - inversion E; reflexivity.
  - inv_bind E. inv_bind E. inversion E; subst bs; simpl.
    f_equal; apply IH; assumption.
Qed.

(** ** Bars *)

Lemma bar_eqb_eq (a b : bar) : bar_eqb a b = true <-> a = b.
Proof.
  destruct a as [a1 a2], b as [b1 b2]; unfold bar_eqb; simpl.
  rewrite andb_true_iff, !Nat.eqb_eq. split.
  - intros [-> ->]; reflexivity.
  - intros E; inversion E; auto.
Qed.

Lemma unique_rows_In (bs : list bar) (b : bar) :
  In b (unique_rows bs) <-> In b bs.
Proof.
  induction bs as [|c r IH]; simpl; [tauto|].
  rewrite filter_In, IH, negb_true_iff. split.
  - intros [E | [Hin _]]; auto.
  - intros [E | Hin]; [left; assumption|].
    destruct (bar_eqb c b) eqn:Ecb.
    + left; apply bar_eqb_eq; assumption.
    + right; split; [assumption | reflexivity].
Qed.

Lemma unique_rows_NoDup (bs : list bar) : NoDup (unique_rows bs).
Proof.
  induction bs as [|c r IH]; simpl; constructor.
  - rewrite filter_In. intros [_ E].
    assert (Ec : bar_eqb c c = true) by (apply bar_eqb_eq; reflexivity).
    rewrite Ec in E; discriminate.
  - apply NoDup_filter; assumption.
Qed.

Lemma columns_In (i j : nat) (t : list simplex) (bs : list bar) :
  columns i j t = Ok bs ->
  forall a b, In (a, b) bs ->
  exists s, In s t /\ nth_error s i = Some a /\ nth_error s j = Some b.
Proof.
  intros E a b Hin. unfold columns in E.
  destruct (mapM_In _ _ E _ Hin) as [s [Hs Hf]].
  exists s; split; [assumption|].
  destruct (nth_error s i) as [x|]; [|discriminate].
  destruct (nth_error s j) as [y|]; [|discriminate].
  inversion Hf; subst; auto.
Qed.

(** A column pair of distinct columns of a simplex with distinct vertices,
    once sorted, is strictly increasing. *)
Lemma sorted_column_pair (i j : nat) (t : list simplex) (bs : list bar) :
  i <> j ->
  (forall s, In s t -> NoDup s) ->
  columns i j t = Ok bs ->
  forall b, In b (map sort_pair bs) -> (fst b < snd b)%nat.
Proof.
  intros Hij Hsimp E b Hb.
  apply in_map_iff in Hb. destruct Hb as [[x y] [<- Hxy]].
  destruct (columns_In _ _ _ E _ _ Hxy) as [s [Hs [Hi Hj]]].
  assert (x <> y).
  { intros ->. apply Hij.
    apply (proj1 (NoDup_nth_error s) (Hsimp s Hs)).
    - apply nth_error_Some; rewrite Hi; discriminate.
    - rewrite Hi, Hj; reflexivity. }
  unfold sort_pair; simpl. lia.
Qed.

Ltac close_column_pair Hsimp :=
  match goal with
  | Hc : columns ?i ?j ?t = Ok ?bs, Hb : In ?b (map sort_pair ?bs) |- _ =>
      apply (@sorted_column_pair i j t bs); [discriminate | exact Hsimp | exact Hc | exact Hb]
  end.

Lemma make_bars_increasing (dim : nat) (t : list simplex) (bars : list bar) :
  (forall s, In s t -> NoDup s) ->
  make_bars dim t = Ok bars ->
  forall b, In b bars -> (fst b < snd b)%nat.
Proof.
  intros Hsimp E b Hb.
  destruct dim as [|[|[|[|n]]]]; simpl in E; try discriminate.
  - inv_bind E. inv_bind E. inv_bind E. inversion E; subst bars; clear E.
    apply (proj1 (unique_rows_In _ _)) in Hb. rewrite !map_app, !in_app_iff in Hb.
    destruct Hb as [Hb | [Hb | Hb]];
      close_column_pair Hsimp.
  - inv_bind E. inv_bind E. inv_bind E. inv_bind E. inv_bind E. inv_bind E.
    inversion E; subst bars; clear E.
    apply (proj1 (unique_rows_In _ _)) in Hb. rewrite !map_app, !in_app_iff in Hb.
    destruct Hb as [Hb | [Hb | [Hb | [Hb | [Hb | Hb]]]]];
      close_column_pair Hsimp.
Qed.

Lemma make_bars_NoDup (dim : nat) (t : list simplex) (bars : list bar) :
  make_bars dim t = Ok bars -> NoDup bars.
Proof.
  intros E.
  destruct dim as [|[|[|[|n]]]]; simpl in E; try discriminate.
  - inv_bind E. inv_bind E. inv_bind E. inversion E; apply unique_rows_NoDup.
  - inv_bind E. inv_bind E. inv_bind E. inv_bind E. inv_bind E. inv_bind E.
    inversion E; apply unique_rows_NoDup.
Qed.

(** C9: the bar set built from a list of simplices (rows of pairwise
    distinct vertex indices) has no repeated row, every row [(i, j)] has
    [i < j], so that there is no self-pair and no pair is present in both
    orders. *)
Theorem bars_unique_and_sorted (dim : nat) (t : list simplex) (bars : list bar) :
  (forall s, In s t -> NoDup s) ->
  make_bars dim t = Ok bars ->
  NoDup bars /\
  forall i j, In (i, j) bars -> (i < j)%nat /\ i <> j /\ ~ In (j, i) bars.
Proof.
  intros Hsimp E. split; [eapply make_bars_NoDup; eassumption|].
  intros i j Hin.
  pose proof (make_bars_increasing _ _ Hsimp E _ Hin) as Hlt; simpl in Hlt.
  repeat split; [assumption | lia |].
  intros Hji.
  pose proof (make_bars_increasing _ _ Hsimp E _ Hji) as Hgt; simpl in Hgt. lia.
Qed.

Lemma two_triangles_simplices : forall s, In s two_triangles -> NoDup s.
Proof.
  intros s [<- | [<- | []]]; repeat constructor; simpl; intuition discriminate.
Qed.

Lemma bars_unique_and_sorted_witness :
  (forall s, In s two_triangles -> NoDup s) /\
  make_bars 2 two_triangles = Ok [(0, 1); (1, 3); (1, 2); (2, 3); (0, 2)]%nat /\
  NoDup [(0, 1); (1, 3); (1, 2); (2, 3); (0, 2)]%nat /\
  forall i j, In (i, j) [(0, 1); (1, 3); (1, 2); (2, 3); (0, 2)]%nat ->
              (i < j)%nat /\ i <> j /\ ~ In (j, i) [(0, 1); (1, 3); (1, 2); (2, 3); (0, 2)]%nat.
Proof.
  split; [exact two_triangles_simplices|].
  split; [reflexivity|].
  exact (bars_unique_and_sorted 2 two_triangles two_triangles_simplices eq_refl).
Defined.

(** ** The loop *)

Section LoopProperties.
Context {F : Type} `{Num F}.
Variable sf : SizingFunction F.
Variable backends : Backends F.
Variable m : method.
Variable max_iter nscreen : Z.
Variable N nfix : nat.

Local Abbreviation retriangulate' := (retriangulate sf backends m).
Local Abbreviation advance' := (advance sf backends m N nfix).
Local Abbreviation check' := (check sf max_iter nscreen).
Local Abbreviation iterate' := (iterate sf backends m max_iter nscreen N nfix).
Local Abbreviation loop' := (loop sf backends m max_iter nscreen N nfix).

Lemma mask_select_mapM (g : list F -> bool) (p : list (list F)) (t : list simplex)
      (pmid : list (list F)) :
  mapM (centroid sf p) t = Ok pmid ->
  forall s, In s (mask_select (map g pmid) t) ->
  exists c, centroid sf p s = Ok c /\ g c = true.
Proof.
  revert pmid; induction t as [|x r IH]; intros pmid E s Hs; simpl in E.
  - inversion E; subst; destruct Hs.
  - inv_bind E. inv_bind E. inversion E; subst pmid; clear E. simpl in Hs.
    destruct (g a) eqn:Eg.
    + destruct Hs as [<- | Hs]; [exists a; auto | eapply IH; eassumption].
    + eapply IH; eassumption.
Qed.

Lemma interior_simplices_kept (p : list (list F)) (t t' : list simplex) :
  interior_simplices sf p t = Ok t' -> kept_by_filter sf p t'.
Proof.
  unfold interior_simplices; intros E. inv_bind E. inversion E; subst t'.
  intros s Hs.
  exact (mask_select_mapM (fun c => fd sf c <.? fopp (geps sf)) _ _ Ea s Hs).
Qed.

Lemma retriangulate_spec (s s1 : state F) :
  retriangulate' s = Ok s1 ->
  st_count s1 = st_count s /\
  (s1 = s \/ triangulated sf s1).
Proof.
  unfold retriangulate; intros E. inv_bind E.
  destruct a.
  - inv_bind E. inv_bind E. inv_bind E. inversion E; subst s1; simpl.
    split; [reflexivity|]. right.
    exists (np_unique (st_p s)), a0, a1; simpl.
    repeat split. eapply interior_simplices_kept; eassumption.
  - inversion E; subst; auto.
Qed.

Lemma advance_spec (s s1 : state F) (Ftot : list (list F)) (d : list F) :
  triangulated sf s \/ (st_t s = None /\ st_bars s = None) ->
  advance' s = Ok (s1, Ftot, d) ->
  st_count s1 = st_count s /\ triangulated sf s1.
Proof.
  unfold advance; intros Hinv E. inv_bind E.
  destruct (retriangulate_spec _ Ea) as [Hc Hs].
  inv_bind E. inv_bind E. inv_bind E.
  destruct (project (fd sf) (dim sf) (deps sf) a2) as [p' d'].
  inversion E; subst; simpl. split; [assumption|].
  assert (Ht : triangulated sf a).
  { destruct Hs as [-> | Hs]; [|assumption].
    destruct Hinv as [Hinv | [_ Hb]]; [assumption|].
    rewrite Hb in Ea0; discriminate. }
  destruct Ht as (q & t & bars & Hq & Ht & Hb & Hk).
  exists q, t, bars; simpl; auto.
Qed.

Lemma check_spec (s : state F) (Ftot : list (list F)) (d : list F) (st : step F) :
  check' s Ftot d = Ok st ->
  match st with
  | Break _ s' => s' = s
  | Continue s' =>
      st_count s' = (st_count s + 1)%Z /\ st_count s <> (max_iter - 1)%Z /\
      st_pold s' = st_pold s /\ st_t s' = st_t s /\ st_bars s' = st_bars s
  end.
Proof.
  unfold check; intros E. inv_bind E.
  destruct (nscreen =? 0)%Z; [discriminate|].
  destruct (a <.? ptol *. h0 sf); [inversion E; reflexivity|].
  destruct (st_count s =? max_iter - 1)%Z eqn:Ec; inversion E; subst; simpl.
  - reflexivity.
  - apply Z.eqb_neq in Ec. auto.
Qed.

Lemma iterate_spec (s : state F) (st : step F) :
  triangulated sf s \/ (st_t s = None /\ st_bars s = None) ->
  iterate' s = Ok st ->
  match st with
  | Break _ s' => triangulated sf s'
  | Continue s' =>
      triangulated sf s' /\
      st_count s' = (st_count s + 1)%Z /\ st_count s <> (max_iter - 1)%Z
  end.
Proof.
  unfold iterate; intros Hinv E. inv_bind E.
  destruct a as [[s1 Ftot] d].
  destruct (advance_spec Hinv Ea) as [Hc Ht].
  pose proof (check_spec _ _ _ E) as Hk.
  destruct st as [s' | r s'].
  - destruct Hk as (Hc' & Hne & Hq & Ht' & Hb').
    repeat split; [|lia|lia].
    destruct Ht as (q & t & bars & ? & ? & ? & ?).
    exists q, t, bars. rewrite Hq, Ht', Hb'; auto.
  - subst s'; assumption.
Qed.

Lemma loop_returns_triangulated (fuel : nat) (s s' : state F) (r : reason) :
  triangulated sf s \/ (st_t s = None /\ st_bars s = None) ->
  loop' fuel s = Returned r s' -> triangulated sf s'.
Proof.
  revert s; induction fuel as [|n IH]; intros s Hinv E; simpl in E; [discriminate|].
  destruct (iterate' s) as [[s1 | r1 s1] | e] eqn:Ei; try discriminate.
  - apply (IH s1); [|assumption].
    left; exact (proj1 (iterate_spec Hinv Ei)).
  - inversion E; subst. exact (iterate_spec Hinv Ei).
Qed.

(** With [n >= 1] iterations left in the budget, [n] iterations end the
    loop, and more fuel changes nothing. *)
Lemma loop_budget (n : nat) :
  forall (s : state F) (extra : nat),
  (1 <= n)%nat ->
  triangulated sf s \/ (st_t s = None /\ st_bars s = None) ->
  st_count s = (max_iter - Z.of_nat n)%Z ->
  loop' (n + extra) s = loop' n s /\ forall s', loop' n s <> Running s'.
Proof.
  induction n as [|n IH]; intros s extra Hn Hinv Hc; [lia|].
  simpl. destruct (iterate' s) as [[s1 | r1 s1] | e] eqn:Ei;
    try (split; [reflexivity | discriminate]).
  destruct (iterate_spec Hinv Ei) as (Ht & Hc1 & Hne).
  apply IH; [lia | left; assumption | lia].
Qed.

End LoopProperties.

(** ** What [build] returns, and when *)

Section BuildProperties.
Context {F : Type} `{Num F}.
Variable sf : SizingFunction F.
Variable backends : Backends F.
Variable m : method.
Variable R : Rng F.
Variable g : rng_state R.
Variable pfix : option (list (list F)).
Variable nscreen : Z.
Variable seed : option Z.

Lemma run_build_budget (max_iter : Z) (fuel : nat) :
  (1 <= max_iter)%Z ->
  (Z.to_nat max_iter <= fuel)%nat ->
  run_build sf backends m R g pfix max_iter nscreen seed fuel
  = run_build sf backends m R g pfix max_iter nscreen seed (Z.to_nat max_iter)
  /\ forall s, run_build sf backends m R g pfix max_iter nscreen seed (Z.to_nat max_iter)
               <> Running s.
Proof.
  intros Hm Hf. unfold run_build.
  destruct (seed_points sf pfix _) as [p | e]; [|split; [reflexivity | discriminate]].
  replace fuel with (Z.to_nat max_iter + (fuel - Z.to_nat max_iter))%nat by lia.
  apply loop_budget.
  - lia.
  - right; split; reflexivity.
  - simpl. lia.
Qed.

(** C2 (amended): for a budget [max_iter >= 1], [build] has returned or
    raised once the loop body has run [max_iter] times: more iterations
    are never taken. *)
Theorem build_ends_within_max_iter (max_iter : Z) (fuel : nat) :
  (1 <= max_iter)%Z ->
  (Z.to_nat max_iter <= fuel)%nat ->
  build sf backends m R g pfix max_iter nscreen seed (Z.to_nat max_iter) <> Unfinished /\
  build sf backends m R g pfix max_iter nscreen seed fuel
  = build sf backends m R g pfix max_iter nscreen seed (Z.to_nat max_iter).
Proof.
  intros Hm Hf. destruct (run_build_budget Hm Hf) as [E Hr].
  unfold build. rewrite E. split; [|reflexivity].
  destruct (run_build sf backends m R g pfix max_iter nscreen seed (Z.to_nat max_iter))
    as [r s | e | s] eqn:Er.
  - destruct (st_t s); discriminate.
  - discriminate.
  - elim (Hr s); reflexivity.
Qed.

(** C3 (amended): every simplex that [build] returns passed the filter of
    line 173 at the last retriangulation: its centroid, taken with the
    positions [pold] saved there, has a signed distance below [-geps]. *)
Theorem returned_simplices_kept_at_last_triangulation
    (max_iter : Z) (fuel : nat) (p : list (list F)) (t : list simplex) :
  build sf backends m R g pfix max_iter nscreen seed fuel = Return p t ->
  exists r s q,
    run_build sf backends m R g pfix max_iter nscreen seed fuel = Returned r s /\
    st_p s = p /\ st_t s = Some t /\ st_pold s = Rows q /\
    forall x, In x t ->
    exists c, centroid sf q x = Ok c /\ (fd sf c <.? fopp (geps sf)) = true.
Proof.
  unfold build. intros E.
  destruct (run_build sf backends m R g pfix max_iter nscreen seed fuel)
    as [r s | e | s] eqn:Er; try discriminate.
  destruct (st_t s) as [t'|] eqn:Et; [|discriminate].
  inversion E; subst p t'; clear E.
  assert (Hs : triangulated sf s).
  { unfold run_build in Er.
    destruct (seed_points sf pfix _) as [p0 | e]; [|discriminate].
    eapply loop_returns_triangulated; [|eassumption].
    right; split; reflexivity. }
  destruct Hs as (q & t0 & bars & Hq & Ht & Hb & Hk).
  rewrite Et in Ht; inversion Ht; subst t0.
  exists r, s, q. auto.
Qed.

End BuildProperties.

(** C8: with a seed given, the state in which numpy's generator happens
    to be when [build] is called has no influence: two runs on the same
    sizing function, fixed points, back end and seed give the same points
    and the same simplices. *)
Theorem build_deterministic_given_seed {F : Type} `{Num F}
    (sf : SizingFunction F) (backends : Backends F) (m : method) (R : Rng F)
    (g1 g2 : rng_state R) (pfix : option (list (list F))) (max_iter nscreen : Z)
    (seed : Z) (fuel : nat) :
  build sf backends m R g1 pfix max_iter nscreen (Some seed) fuel
  = build sf backends m R g2 pfix max_iter nscreen (Some seed) fuel.
Proof.
  unfold build, run_build. reflexivity.
Qed.

Lemma build_ends_within_max_iter_witness :
  (1 <= 2)%Z /\ (Z.to_nat 2 <= 3)%nat /\
  build half_plane_sizing (fixed_backend two_triangles) Qhull half_rng tt None
        2 5 (Some 1%Z) (Z.to_nat 2) <> Unfinished /\
  build half_plane_sizing (fixed_backend two_triangles) Qhull half_rng tt None
        2 5 (Some 1%Z) 3
  = build half_plane_sizing (fixed_backend two_triangles) Qhull half_rng tt None
          2 5 (Some 1%Z) (Z.to_nat 2).
Proof.
  split; [lia|]. split; [simpl; lia|].
  apply build_ends_within_max_iter; [lia | simpl; lia].
Defined.

(** C2, as stated, fails: with [max_iter = 0] the test [count == max_iter - 1]
    never holds; on the half plane [x <= 1] three iterations have run and
    [build] has not returned. *)
Lemma budget_zero_counterexample :
  ~ (forall (max_iter : Z) (fuel : nat),
       (Z.to_nat max_iter <= fuel)%nat ->
       build half_plane_sizing (fixed_backend two_triangles) Qhull half_rng tt None
             max_iter 5 (Some 1%Z) fuel <> Unfinished).
Proof.
  intros Hclaim. apply (Hclaim 0%Z 3%nat); [simpl; lia|].
  vm_compute. reflexivity.
Qed.

Lemma returned_simplices_kept_at_last_triangulation_witness :
  exists p,
    build gap_sizing (fixed_backend [[0; 1; 2]%nat]) Qhull half_rng tt
          (Some [[-0.125; 0.5]]%float) 1 5 (Some 1%Z) 1
    = Return p [[0; 1; 2]%nat] /\
    exists r s q,
      run_build gap_sizing (fixed_backend [[0; 1; 2]%nat]) Qhull half_rng tt
                (Some [[-0.125; 0.5]]%float) 1 5 (Some 1%Z) 1 = Returned r s /\
      st_p s = p /\ st_t s = Some [[0; 1; 2]%nat] /\ st_pold s = Rows q /\
      forall x, In x [[0; 1; 2]%nat] ->
      exists c, centroid gap_sizing q x = Ok c
                /\ (fd gap_sizing c <.? fopp (geps gap_sizing)) = true.
Proof.
  eexists. split; [vm_compute; reflexivity|].
  apply returned_simplices_kept_at_last_triangulation.
  vm_compute; reflexivity.
Defined.

(** C3, as stated, fails: on the domain [|x| >= 1] with [h0 = 1], the
    lattice nodes [(1.75, 0)], [(1.75, 1)] and the fixed point
    [(-0.125, 0.5)], the triangle [0, 1, 2] is kept, its centroid
    [(1.125, 0.5)] having the signed distance [-0.125 < -geps = -0.1].  The
    first iteration projects the fixed point, which lies outside, to
    [(-1, 0.5)] and moves the two nodes to [(1.758, -0.105)] and
    [(1.758, 1.105)]; [build] returns the triangle with these positions,
    where its centroid [(0.839, 0.5)] has the signed distance [0.161],
    which is not below [geps = 0.1]. *)
Lemma returned_centroid_outside_counterexample :
  ~ (forall (p : list (list float)) (t : list simplex),
       build gap_sizing (fixed_backend [[0; 1; 2]%nat]) Qhull half_rng tt
             (Some [[-0.125; 0.5]]%float) 1 5 (Some 1%Z) 1 = Return p t ->
       forall s, In s t ->
       exists d, centroid_distance gap_sizing p s = Ok d
                 /\ (d <.? geps gap_sizing) = true).
Proof.
  intros Hclaim.
  assert (E : build gap_sizing (fixed_backend [[0; 1; 2]%nat]) Qhull half_rng tt
                    (Some [[-0.125; 0.5]]%float) 1 5 (Some 1%Z) 1
              = Return [[-1; 0.5]; [1.7580283299187867; -0.10450195142682372];
                        [1.7580283299187867; 1.1045019514268237]]%float [[0; 1; 2]%nat])
    by (vm_compute; reflexivity).
  destruct (Hclaim _ _ E [0; 1; 2]%nat (or_introl eq_refl)) as [d [Ed Hd]].
  vm_compute in Ed. inversion Ed; subst d.
  vm_compute in Hd. discriminate.
Qed.

(** ** The two exits of the loop body *)

Section Exits.
Context {F : Type} `{Num F}.
Variable sf : SizingFunction F.
Variable backends : Backends F.
Variable m : method.
Variable max_iter nscreen : Z.
Variable N nfix : nat.

Lemma no_interior_rows (e : F) (Ftot : list (list F)) (d : list F) :
  Forall (fun x => (x <.? fopp e) = false) d ->
  interior_rows e Ftot d = [].
Proof.
  unfold interior_rows. intros Hd; revert Ftot.
  induction Hd as [|x d Hx Hd IH]; intros Ftot; simpl; [reflexivity|].
  destruct Ftot as [|r Ftot]; [reflexivity|].
  rewrite Hx. apply IH.
Qed.

(** C10: when no point has a signed distance below [-geps] at step 8a,
    the maximum of line 244 is taken over an empty array: the iteration
    raises [ValueError], and so does the loop. *)
Theorem no_interior_point_raises (s s1 : state F) (Ftot : list (list F)) (d : list F) :
  advance sf backends m N nfix s = Ok (s1, Ftot, d) ->
  Forall (fun x => (x <.? fopp (geps sf)) = false) d ->
  iterate sf backends m max_iter nscreen N nfix s = Raise ValueError_zero_size /\
  forall fuel, loop sf backends m max_iter nscreen N nfix (S fuel) s
               = Raised ValueError_zero_size.
Proof.
  intros Ea Hd.
  assert (Ei : iterate sf backends m max_iter nscreen N nfix s = Raise ValueError_zero_size).
  { unfold iterate. rewrite Ea; simpl.
    unfold check, max_displacement. rewrite (@no_interior_rows (geps sf) Ftot d Hd). reflexivity. }
  split; [assumption|].
  intros fuel; simpl. rewrite Ei. reflexivity.
Qed.

End Exits.

Lemma no_interior_point_raises_witness :
  exists s1 Ftot d,
    advance (square_sizing 1) (fixed_backend two_triangles) Qhull 4 0
            (initial_state [[0; 0]; [0; 1]; [1; 0]; [1; 1]]%float) = Ok (s1, Ftot, d) /\
    Forall (fun x => (x <.? fopp (geps (square_sizing 1))) = false) d /\
    iterate (square_sizing 1) (fixed_backend two_triangles) Qhull 10 5 4 0
            (initial_state [[0; 0]; [0; 1]; [1; 0]; [1; 1]]%float)
    = Raise ValueError_zero_size /\
    forall fuel,
      loop (square_sizing 1) (fixed_backend two_triangles) Qhull 10 5 4 0 (S fuel)
           (initial_state [[0; 0]; [0; 1]; [1; 0]; [1; 1]]%float)
      = Raised ValueError_zero_size.
Proof.
  eexists. eexists. eexists.
  split; [vm_compute; reflexivity|].
  split; [repeat constructor|].
  eapply no_interior_point_raises; [vm_compute; reflexivity | repeat constructor].
Defined.

(** ** A triangulation without simplices *)

Section Degenerate.
Context {F : Type} `{Num F}.
Variable sf : SizingFunction F.
Variable backends : Backends F.
Variable m : method.
Variable max_iter nscreen : Z.
Variable N nfix : nat.

Lemma make_bars_nil (dim : nat) :
  dim = 2%nat \/ dim = 3%nat -> make_bars dim [] = Ok [].
Proof. intros [-> | ->]; reflexivity. Qed.

Lemma zero_prefix_zeros (n k : nat) :
  zero_prefix sf n (repeat (zeros (dim sf)) k) = repeat (zeros (dim sf)) k.
Proof.
  revert k; induction n as [|n IH]; intros [|k]; simpl; try reflexivity.
  rewrite IH; reflexivity.
Qed.

Lemma map2_repeat {A B C : Type} (f : A -> B -> C) (l : list A) (z : B) :
  map2 f l (repeat z (length l)) = map (fun x => f x z) l.
Proof.
  induction l as [|x l IH]; simpl; [reflexivity | rewrite IH; reflexivity].
Qed.

Lemma mask_select_repeat {A B : Type} (g : A -> bool) (l : list A) (z : B) :
  mask_select (map g l) (repeat z (length l)) = repeat z (length (filter g l)).
Proof.
  induction l as [|x l IH]; simpl; [reflexivity|].
  destruct (g x); simpl; rewrite IH; reflexivity.
Qed.

Lemma existsb_filter_length {A : Type} (g : A -> bool) (l : list A) :
  existsb g l = true -> exists k, length (filter g l) = S k.
Proof.
  induction l as [|x l IH]; simpl; [discriminate|].
  destruct (g x); simpl; [intros _; eexists; reflexivity | exact IH].
Qed.

Lemma fmaximum_same (x : F) : fmaximum x x = x.
Proof. unfold fmaximum. destruct (is_nan x); [|destruct (x <.? x)]; reflexivity. Qed.

Lemma np_max_repeat (x : F) (k : nat) : np_max (repeat x (S k)) = Ok x.
Proof.
  simpl. f_equal. induction k as [|k IH]; simpl; [reflexivity|].
  rewrite fmaximum_same. exact IH.
Qed.

(** C7 (amended): when a retriangulation of a point set without duplicate
    rows yields zero simplices, the bars are empty and every force is
    zero; if some point then has a signed distance below [-geps] the
    iteration does not raise: the displacement it reports is that of a
    zero force, and if this is below [ptol * h0] the loop ends as
    converged, with an empty simplex list and the points only moved by the
    projection. *)
Theorem zero_simplices_converge (s : state F) :
  moved_far sf (st_p s) (st_pold s) = Ok true ->
  delaunay sf backends m (np_unique (st_p s)) = Some (Ok []) ->
  dim sf = 2%nat \/ dim sf = 3%nat ->
  length (np_unique (st_p s)) = N ->
  nscreen <> 0%Z ->
  existsb (fun x => fd sf x <.? fopp (geps sf)) (moved_by_zero sf (np_unique (st_p s))) = true ->
  (deltat *. norm (zeros (dim sf)) <.? ptol *. h0 sf) = true ->
  total_force sf N nfix (np_unique (st_p s)) [] = Ok (repeat (zeros (dim sf)) N) /\
  iterate sf backends m max_iter nscreen N nfix s
  = Ok (Break Converged
          {| st_p := fst (project (fd sf) (dim sf) (deps sf)
                                  (moved_by_zero sf (np_unique (st_p s))));
             st_pold := Rows (np_unique (st_p s));
             st_t := Some [];
             st_bars := Some [];
             st_count := st_count s |}).
Proof.
  intros Hfar Hdel Hdim Hlen Hns Hint Htol.
  assert (Hforce : total_force sf N nfix (np_unique (st_p s)) []
                   = Ok (repeat (zeros (dim sf)) N)).
  { unfold total_force; simpl. rewrite zero_prefix_zeros; reflexivity. }
  split; [exact Hforce|].
  assert (Hre : retriangulate sf backends m s
                = Ok {| st_p := np_unique (st_p s); st_pold := Rows (np_unique (st_p s));
                        st_t := Some []; st_bars := Some []; st_count := st_count s |}).
  { unfold retriangulate. rewrite Hfar; simpl. rewrite Hdel; simpl.
    unfold interior_simplices; simpl. rewrite (make_bars_nil Hdim). reflexivity. }
  assert (Hup : update (np_unique (st_p s)) (repeat (zeros (dim sf)) N)
                = Ok (moved_by_zero sf (np_unique (st_p s)))).
  { unfold update. unfold vec in Hlen. unfold vec. rewrite repeat_length, Hlen, Nat.eqb_refl.
    rewrite <- Hlen, map2_repeat. reflexivity. }
  unfold iterate, advance. rewrite Hre.
  cbn [bind st_p st_pold st_t st_bars st_count]. rewrite Hforce.
  cbn [bind]. rewrite Hup. cbn [bind].
  destruct (project (fd sf) (dim sf) (deps sf) (moved_by_zero sf (np_unique (st_p s))))
    as [p' d] eqn:Ep; cbn [bind fst st_p st_pold st_t st_bars st_count].
  assert (Hd : d = map (fd sf) (moved_by_zero sf (np_unique (st_p s)))).
  { unfold project in Ep. destruct (existsb _ _) in Ep; inversion Ep; reflexivity. }
  assert (Hmax : max_displacement sf (repeat (zeros (dim sf)) N) d
                 = Ok (deltat *. norm (zeros (dim sf)))).
  { unfold max_displacement, interior_rows. subst d.
    rewrite map_map.
    replace N with (length (moved_by_zero sf (np_unique (st_p s))))
      by (unfold moved_by_zero; rewrite length_map; exact Hlen).
    rewrite (mask_select_repeat (fun x => fd sf x <.? fopp (geps sf))).
    destruct (existsb_filter_length _ _ Hint) as [k ->].
    rewrite map_repeat, np_max_repeat. reflexivity. }
  unfold check. rewrite Hmax; cbn [bind].
  apply Z.eqb_neq in Hns. rewrite Hns, Htol. reflexivity.
Qed.

End Degenerate.

Lemma zero_simplices_converge_witness :
  total_force (square_sizing 0.5) 9 0
    (np_unique [[0; 0]; [0; 0.5]; [0; 1]; [0.5; 0]; [0.5; 0.5]; [0.5; 1];
                [1; 0]; [1; 0.5]; [1; 1]]%float) []
  = Ok (repeat (zeros (dim (square_sizing 0.5))) 9) /\
  iterate (square_sizing 0.5) (fixed_backend []) Qhull 10 5 9 0
    (initial_state [[0; 0]; [0; 0.5]; [0; 1]; [0.5; 0]; [0.5; 0.5]; [0.5; 1];
                    [1; 0]; [1; 0.5]; [1; 1]]%float)
  = Ok (Break Converged
          {| st_p := [[0; 0]; [0; 0.5]; [0; 1]; [0.5; 0]; [0.5; 0.5]; [0.5; 1];
                      [1; 0]; [1; 0.5]; [1; 1]]%float;
             st_pold := Rows [[0; 0]; [0; 0.5]; [0; 1]; [0.5; 0]; [0.5; 0.5]; [0.5; 1];
                              [1; 0]; [1; 0.5]; [1; 1]]%float;
             st_t := Some [];
             st_bars := Some [];
             st_count := 0 |}).
Proof.
  apply (@zero_simplices_converge float fl (square_sizing 0.5) (fixed_backend []) Qhull 10 5 9 0
           (initial_state [[0; 0]; [0; 0.5]; [0; 1]; [0.5; 0]; [0.5; 0.5]; [0.5; 1];
                           [1; 0]; [1; 0.5]; [1; 1]]%float)).
  - vm_compute; reflexivity.
  - reflexivity.
  - left; reflexivity.
  - vm_compute; reflexivity.
  - discriminate.
  - vm_compute; reflexivity.
  - vm_compute; reflexivity.
Defined.

(** The displacement reported for a zero force is zero. *)
Lemma zero_force_displacement :
  deltat *. norm (zeros 2) = 0%float /\ deltat *. norm (zeros 3) = 0%float.
Proof. split; vm_compute; reflexivity. Qed.

(** C7, as stated, fails: [build] raises [ValueError] when no lattice node
    lies in the domain, so that the point set is empty ([r0.min()], line
    142), and when the back end returns zero simplices for the four
    corners of the unit square, none of which has [d < -geps] (line 244). *)
Lemma degenerate_meshes_raise_counterexample :
  build nowhere_sizing (fixed_backend []) Qhull half_rng tt None 10 5 (Some 1%Z) 10
  = Error ValueError_zero_size /\
  build (square_sizing 1) (fixed_backend []) Qhull half_rng tt None 10 5 (Some 1%Z) 10
  = Error ValueError_zero_size /\
  iterate (square_sizing 1) (fixed_backend []) Qhull 10 5 0 0 (initial_state [])
  = Raise ValueError_zero_size.
Proof. repeat split; vm_compute; reflexivity. Qed.

(** ** Fixed points *)

(** C1 fails on the code: on the unit square with [h0 = 1] and the fixed
    point [(0.5, 0.25)], [np.unique] (line 160) sorts the five points, the
    fixed point becomes row 2, line 225 clears the force on row 0, the
    corner [(0, 0)], and the fixed point moves to [(0.5, 0.27)]. *)
Lemma fixed_point_is_moved :
  seed_points (square_sizing 1) (Some [[0.5; 0.25]]%float) (rng_draw half_rng tt)
  = Ok [[0.5; 0.25]; [0; 0]; [0; 1]; [1; 0]; [1; 1]]%float /\
  build (square_sizing 1) (fixed_backend four_triangles) Qhull half_rng tt
        (Some [[0.5; 0.25]]%float) 1 5 (Some 1%Z) 1
  = Return [[0; 0]; [-0.011569183823963993; 1]; [0.5; 0.27001319419948389];
            [1; -0.025398848608621627]; [1.011569183823964; 1]]%float
           [[0; 1; 2]; [1; 2; 4]; [2; 3; 4]]%nat /\
  forallb (fun row => negb (row_eqb row [0.5; 0.25]%float))
          [[0; 0]; [-0.011569183823963993; 1]; [0.5; 0.27001319419948389];
           [1; -0.025398848608621627]; [1.011569183823964; 1]]%float = true.
Proof. repeat split; vm_compute; reflexivity. Qed.

(** A fixed point on a lattice node is a duplicate row: [np.unique] drops
    it, [p] has one row less than [Ftot] and line 226 raises. *)
Lemma fixed_point_on_lattice_raises :
  build (square_sizing 0.5) (fixed_backend eight_triangles) Qhull half_rng tt
        (Some [[0.5; 0.5]]%float) 10 5 (Some 1%Z) 10
  = Error ValueError_broadcast.
Proof. vm_compute; reflexivity. Qed.

(** ** The kernels in exact arithmetic *)

Lemma Qltb_lt (x y : Q) : Qltb x y = true <-> (x < y)%Q.
Proof.
  unfold Qltb. rewrite negb_true_iff. split.
  - intros E. apply Qnot_le_lt. intros Hle.
    apply Qle_bool_iff in Hle. congruence.
  - intros Hlt. destruct (Qle_bool y x) eqn:E; [|reflexivity].
    apply Qle_bool_iff in E. exfalso. exact (Qlt_not_le _ _ Hlt E).
Qed.

Lemma Qltb_ge (x y : Q) : Qltb x y = false <-> (y <= x)%Q.
Proof.
  unfold Qltb. rewrite negb_false_iff. apply Qle_bool_iff.
Qed.

(** No rational is a NaN: the maximum of two is the larger one. *)
Lemma fmaximum_Q (a b : Q) : @fmaximum Q Q_arith a b = if Qltb a b then b else a.
Proof.
  unfold fmaximum, is_nan. cbn [feqb fltb Q_arith].
  rewrite !Qeq_bool_refl. reflexivity.
Qed.

Lemma nth_error_map2 {A B C : Type} (f : A -> B -> C) (a : list A) (b : list B)
      (k : nat) (x : A) (y : B) :
  nth_error a k = Some x -> nth_error b k = Some y ->
  nth_error (map2 f a b) k = Some (f x y).
Proof.
  revert b k; induction a as [|a0 a IH]; intros [|b0 b] [|k] Ha Hb;
    simpl in Ha, Hb; try discriminate; simpl.
  - inversion Ha; inversion Hb; reflexivity.
  - apply IH; assumption.
Qed.

Lemma bar_force_Q (L0 L : Q) :
  (bar_force L0 L == Qmax (L0 - L) 0)%Q /\ (0 <= bar_force L0 L)%Q /\
  ((L0 <= L)%Q -> (bar_force L0 L == 0)%Q).
Proof.
  unfold bar_force; cbn [fltb fsub fzero Q_arith].
  destruct (Qltb (L0 - L) 0) eqn:E.
  - apply Qltb_lt in E. split; [|split].
    + symmetry. apply Q.max_r. apply Qlt_le_weak; assumption.
    + apply Qle_refl.
    + intros _; reflexivity.
  - apply Qltb_ge in E. split; [|split].
    + symmetry. apply Q.max_l. assumption.
    + assumption.
    + intros Hle. apply Qle_antisym; [lra | assumption].
Qed.

Lemma fold_left_Qplus (r : list Q) (a : Q) :
  (fold_left Qplus r a == a + vsum r)%Q.
Proof.
  revert a; induction r as [|y r IH]; intros a; simpl.
  - ring.
  - rewrite IH. rewrite (IH y). ring.
Qed.

Lemma vsum_cons (x : Q) (r : list Q) : (vsum (x :: r) == x + vsum r)%Q.
Proof. simpl. apply fold_left_Qplus. Qed.

Lemma vsum_sq_scaled (c : Q) (v : list Q) :
  (vsum (map sq (map (fun x => c * x) v)) == c * c * vsum (map sq v))%Q.
Proof.
  induction v as [|x v IH].
  - simpl. ring.
  - cbn [map]. rewrite !vsum_cons, IH. unfold sq; cbn [fmul Q_arith]. ring.
Qed.

(** C5: in exact arithmetic, the scalar force of every bar is
    [max(L0 - L, 0)]: it is never negative, it is zero for a bar at least
    as long as desired, and the force vector [F / L * barvec] of a bar of
    length [L > 0] has the magnitude [F]. *)
Theorem bar_force_repulsive_only (L0s Ls : list Q) (k : nat) (L0 L : Q) :
  nth_error L0s k = Some L0 ->
  nth_error Ls k = Some L ->
  exists f,
    nth_error (bar_forces L0s Ls) k = Some f /\
    (f == Qmax (L0 - L) 0)%Q /\
    (0 <= f)%Q /\
    ((L0 <= L)%Q -> (f == 0)%Q) /\
    forall barvec : list Q,
      (0 < L)%Q -> (L * L == vsum (map sq barvec))%Q ->
      (vsum (map sq (force_vector f L barvec)) == f * f)%Q.
Proof.
  intros H0 HL. exists (bar_force L0 L).
  destruct (bar_force_Q L0 L) as (Hmax & Hpos & Hzero).
  split; [apply nth_error_map2; assumption|].
  split; [assumption|]. split; [assumption|]. split; [assumption|].
  intros barvec HLpos Hlen.
  unfold force_vector; cbn [fmul fdiv Q_arith].
  rewrite vsum_sq_scaled, <- Hlen. field. lra.
Qed.

Lemma bar_force_repulsive_only_witness :
  exists f,
    nth_error (bar_forces [6; 4]%Q [5; 5]%Q) 0 = Some f /\
    (f == Qmax (6 - 5) 0)%Q /\
    (0 <= f)%Q /\
    ((6 <= 5)%Q -> (f == 0)%Q) /\
    forall barvec : list Q,
      (0 < 5)%Q -> (5 * 5 == vsum (map sq barvec))%Q ->
      (vsum (map sq (force_vector f 5 barvec)) == f * f)%Q.
Proof.
  exact (@bar_force_repulsive_only [6; 4]%Q [5; 5]%Q 0 6%Q 5%Q eq_refl eq_refl).
Defined.

(** A bar longer than desired pulls nothing: lengths 4 against 5. *)
Lemma long_bar_no_force : bar_forces [6; 4]%Q [5; 5]%Q = [6 - 5; 0]%Q.
Proof. reflexivity. Qed.

Lemma clamp_Q (deps g2 : Q) :
  (deps <= clamp deps g2)%Q /\ (clamp deps g2 = deps \/ clamp deps g2 = g2).
Proof.
  unfold clamp; cbn [fltb Q_arith].
  destruct (Qltb g2 deps) eqn:E.
  - split; [apply Qle_refl | left; reflexivity].
  - apply Qltb_ge in E. split; [assumption | right; reflexivity].
Qed.

Lemma project_row (fd : list Q -> Q) (dim : nat) (deps : Q) (p : list (list Q))
      (i : nat) (pt : list Q) :
  nth_error p i = Some pt ->
  nth_error (fst (project fd dim deps p)) i
  = Some (if Qltb 0 (fd pt) then project_point fd dim deps pt (fd pt) else pt).
Proof.
  intros Hi. unfold project.
  destruct (existsb (fun b : bool => b) (map (fun x : Q => fzero <.? x) (map fd p))) eqn:Ex;
    cbn [fst].
  - change (Qltb 0 (fd pt)) with (fzero <.? fd pt).
    apply (nth_error_map2 (fun pt x => if fzero <.? x then project_point fd dim deps pt x else pt));
      [assumption | rewrite nth_error_map, Hi; reflexivity].
  - rewrite Hi. f_equal.
    destruct (Qltb 0 (fd pt)) eqn:E; [|reflexivity].
    exfalso.
    assert (Hin : existsb (fun b : bool => b)
                    (map (fun x : Q => fzero <.? x) (map fd p)) = true).
    { apply existsb_exists. exists true; split; [|reflexivity].
      apply in_map_iff. exists (fd pt); split; [exact E|].
      apply in_map. eapply nth_error_In; eassumption. }
    congruence.
Qed.

Lemma map2_map_length {A B C : Type} (f : A -> B -> C) (g : A -> B) (q : list A) :
  length (map2 f q (map g q)) = length q.
Proof.
  induction q as [|x q IH]; simpl; [reflexivity | f_equal; exact IH].
Qed.

Lemma project_length (fd : list Q -> Q) (dim : nat) (deps : Q) (p : list (list Q)) :
  length (fst (project fd dim deps p)) = length p.
Proof.
  unfold project.
  destruct (existsb _ _); cbn [fst]; [apply map2_map_length | reflexivity].
Qed.

(** C6: in exact arithmetic and for a step [deps > 0], the projection
    leaves the rows with [d <= 0] as they are and moves a row with [d > 0]
    by [- d * g / g2], where [g] is the forward difference of [fd] with
    step [deps] along every axis and [g2] is [|g|^2] clamped from below to
    [deps]; both divisors, [deps] and [g2], are positive.  The step is a
    total function: it raises nothing. *)
Theorem projection_is_guarded (fd : list Q -> Q) (dim : nat) (deps : Q)
    (p : list (list Q)) (i : nat) (pt : list Q) :
  (0 < deps)%Q ->
  nth_error p i = Some pt ->
  let d := fd pt in
  let g := map (fun j => (fd (vadd pt (deps_vec dim deps j)) - d) / deps)%Q (seq 0 dim) in
  let g2 := clamp deps (dgrad2_raw g) in
  length (fst (project fd dim deps p)) = length p /\
  (deps <= g2)%Q /\ (0 < g2)%Q /\ (g2 = deps \/ g2 = dgrad2_raw g) /\
  ((0 < d)%Q ->
   nth_error (fst (project fd dim deps p)) i
   = Some (vsub pt (map (fun gi => d * gi / g2)%Q g))) /\
  ((d <= 0)%Q -> nth_error (fst (project fd dim deps p)) i = Some pt).
Proof.
  intros Hdeps Hi d g g2.
  destruct (clamp_Q deps (dgrad2_raw g)) as [Hge Hwhich].
  split; [apply project_length|].
  split; [exact Hge|]. split; [eapply Qlt_le_trans; eassumption|].
  split; [exact Hwhich|].
  rewrite (project_row fd dim deps p i Hi). fold d. split.
  - intros Hd. apply Qltb_lt in Hd. rewrite Hd. reflexivity.
  - intros Hd. apply Qltb_ge in Hd. rewrite Hd. reflexivity.
Qed.

(** The gradient of [fd (x, y) = x] is [(1, 0)], its squared norm 1 is
    not clamped, and the point [(1/2, 0)] goes back to [(0, 0)]. *)
Lemma projection_is_guarded_witness :
  let fd := fun pt : list Q => nth 0 pt 0%Q in
  let p := [[1 # 2; 0]; [-1; 0]]%Q in
  let g := map (fun j => (fd (vadd [1 # 2; 0]%Q (deps_vec 2 (1 # 4) j)) - (1 # 2)) / (1 # 4))%Q
               (seq 0 2) in
  let g2 := clamp (1 # 4)%Q (dgrad2_raw g) in
  length (fst (project fd 2 (1 # 4)%Q p)) = length p /\
  ((1 # 4) <= g2)%Q /\ (0 < g2)%Q /\ (g2 = (1 # 4)%Q \/ g2 = dgrad2_raw g) /\
  ((0 < 1 # 2)%Q ->
   nth_error (fst (project fd 2 (1 # 4)%Q p)) 0
   = Some (vsub [1 # 2; 0]%Q (map (fun gi => (1 # 2) * gi / g2)%Q g))) /\
  (((1 # 2) <= 0)%Q -> nth_error (fst (project fd 2 (1 # 4)%Q p)) 0 = Some [1 # 2; 0]%Q).
Proof.
  exact (@projection_is_guarded (fun pt : list Q => nth 0 pt 0%Q) 2 (1 # 4)%Q
           [[1 # 2; 0]; [-1; 0]]%Q 0 [1 # 2; 0]%Q eq_refl eq_refl).
Defined.

(** ** The convergence test: lines 243-256 *)

Lemma interior_rows_filter {F : Type} `{Arith F} (e : F) (Ftot : list (list F)) (d : list F) :
  map fst (filter (fun rx : list F * F => snd rx <.? fopp e) (combine Ftot d))
  = interior_rows e Ftot d.
Proof.
  unfold interior_rows. revert d.
  induction Ftot as [|r Ftot IH]; intros [|x d]; simpl; try reflexivity.
  destruct (x <.? fopp e); simpl; rewrite IH; reflexivity.
Qed.

Lemma project_distances {F : Type} `{Arith F} (fd : list F -> F) (dm : nat) (dp : F)
      (p : list (list F)) :
  snd (project fd dm dp p) = map fd p.
Proof. unfold project. destruct (existsb _ _); reflexivity. Qed.

Lemma forallb_over_map {A B : Type} (f : B -> bool) (g : A -> B) (l : list A) :
  forallb f (map g l) = forallb (fun x => f (g x)) l.
Proof. induction l as [|x l IH]; simpl; [|rewrite IH]; reflexivity. Qed.

(** The largest of a non-empty list of rationals, scaled by [c > 0], is
    below [t] exactly when every scaled element is. *)
Lemma fold_maximum_below (c t : Q) (r : list Q) :
  (0 < c)%Q ->
  forall x : Q,
  Qltb (c * fold_left (@fmaximum Q Q_arith) r x) t = true <->
  forallb (fun y => Qltb (c * y) t) (x :: r) = true.
Proof.
  intros Hc. induction r as [|y r IH]; intros x.
  - simpl. rewrite andb_true_r. reflexivity.
  - cbn [fold_left]. rewrite IH, fmaximum_Q.
    cbn [forallb]. rewrite !andb_true_iff, !Qltb_lt.
    destruct (Qltb x y) eqn:Exy.
    + apply Qltb_lt in Exy. split.
      * intros [Hy Hr]. repeat split; try assumption.
        eapply Qlt_trans; [|exact Hy]. apply Qmult_lt_l; assumption.
      * intros [_ [Hy Hr]]. split; assumption.
    + apply Qltb_ge in Exy. split.
      * intros [Hx Hr]. repeat split; try assumption.
        eapply Qle_lt_trans; [|exact Hx]. apply Qmult_le_l; assumption.
      * intros [Hx [_ Hr]]. split; assumption.
Qed.

Section ExactConvergence.
Variable sqrtQ : Q -> Q.
Variable rootQ : nat -> Q -> Q.
Variable infQ : Q.
Variable sf : SizingFunction Q.
Variable backends : Backends Q.
Variable m : method.
Variable max_iter nscreen : Z.
Variable N nfix : nat.

Local Abbreviation QC := (Q_num sqrtQ rootQ infQ).

(** Line 244 against the wording of the specification: [maxdp] exists and
    is below [ptol * h0] exactly when there is an interior point and
    every interior point moves by less than [ptol * h0]. *)
Lemma max_displacement_below (Ftot : list (list Q)) (d : list Q) :
  (exists mx, @max_displacement Q QC sf Ftot d = Ok mx /\
              Qltb mx (@ptol Q QC * h0 sf) = true)
  <-> @claimed_converged Q QC sf Ftot d = true.
Proof.
  unfold max_displacement, claimed_converged, claimed_interior_moves.
  rewrite <- (interior_rows_filter (geps sf) Ftot d).
  set (rows := filter (fun rx : list Q * Q => snd rx <.? fopp (geps sf)) (combine Ftot d)).
  rewrite map_map.
  destruct rows as [|rx rows]; simpl.
  - split; [intros [mx [E _]]; discriminate | discriminate].
  - assert (Hc : (0 < @deltat Q QC)%Q) by reflexivity.
    pose proof (@fold_maximum_below (@deltat Q QC) (@ptol Q QC * h0 sf)
                  (map (fun x => @norm Q QC (fst x)) rows) Hc (@norm Q QC (fst rx))) as Hmax.
    cbn [forallb] in Hmax. rewrite forallb_over_map in Hmax.
    rewrite forallb_over_map. split.
    + intros [mx [E Hlt]]. inversion E; subst mx; clear E.
      apply Hmax. exact Hlt.
    + intros Hall. eexists. split; [reflexivity|]. apply Hmax. exact Hall.
Qed.

(** C4 (amended): in exact arithmetic and with [nscreen <> 0], an
    iteration whose update went through ends [build] as converged exactly
    when some point lies more than [geps] inside the domain and every such
    point moves by less than [ptol * h0] - the move being [deltat] times
    the norm of the force that the update applied, the signed distance the
    one of the updated position - and [build] then holds the projected
    positions. *)
Theorem converged_exactly_when_small_interior_move
    (s s1 : state Q) (bars : list bar) (Ftot p1 : list (list Q)) :
  nscreen <> 0%Z ->
  @retriangulate Q QC sf backends m s = Ok s1 ->
  st_bars s1 = Some bars ->
  @total_force Q QC sf N nfix (st_p s1) bars = Ok Ftot ->
  @update Q QC (st_p s1) Ftot = Ok p1 ->
  ((exists s', @iterate Q QC sf backends m max_iter nscreen N nfix s
               = Ok (Break Converged s'))
   <-> @claimed_converged Q QC sf Ftot (map (fd sf) p1) = true) /\
  (forall s', @iterate Q QC sf backends m max_iter nscreen N nfix s
              = Ok (Break Converged s') ->
              st_p s' = fst (project (fd sf) (dim sf) (@deps Q QC sf) p1)).
Proof.
  intros Hn Er Eb Ef Eu.
  assert (Ei : forall st,
             @iterate Q QC sf backends m max_iter nscreen N nfix s = Ok st <->
             @check Q QC sf max_iter nscreen
               {| st_p := fst (project (fd sf) (dim sf) (@deps Q QC sf) p1);
                  st_pold := st_pold s1; st_t := st_t s1; st_bars := st_bars s1;
                  st_count := st_count s1 |} Ftot (map (fd sf) p1) = Ok st).
  { intros st. unfold iterate, advance. rewrite Er; cbn [bind].
    rewrite Eb; cbn [bind]. rewrite Ef; cbn [bind]. rewrite Eu; cbn [bind].
    rewrite <- (project_distances (fd sf) (dim sf) (@deps Q QC sf) p1).
    destruct (project (fd sf) (dim sf) (@deps Q QC sf) p1) as [p' d']; cbn [fst snd bind].
    reflexivity. }
  apply Z.eqb_neq in Hn.
  split; [split|].
  - intros [s' E]. apply Ei in E. apply max_displacement_below.
    unfold check in E. inv_bind E. exists a. split; [exact Ea|].
    rewrite Hn in E.
    destruct (a <.? ptol *. h0 sf) eqn:Et; [exact Et|].
    destruct (_ =? _)%Z in E; discriminate.
  - intros Hc. apply max_displacement_below in Hc. destruct Hc as [mx [Em Hlt]].
    eexists. apply Ei. unfold check. rewrite Em; cbn [bind].
    rewrite Hn.
    change (mx <.? ptol *. h0 sf) with (Qltb mx (@ptol Q QC * h0 sf)).
    rewrite Hlt. reflexivity.
  - intros s' E. apply Ei in E. apply check_spec in E. subst s'. reflexivity.
Qed.

End ExactConvergence.

(** On the 3 x 3 lattice of the unit square with [h0 = 1/2] the forces on
    the centre cancel, and the first iteration converges. *)
Lemma converged_exactly_when_small_interior_move_witness :
  exists s1 bars Ftot p1,
    @retriangulate Q plain_Q (square_sizing_Q (1 # 2)) (fixed_backend_Q eight_triangles)
      Qhull (@initial_state Q plain_Q lattice_3x3_Q) = Ok s1 /\
    st_bars s1 = Some bars /\
    @total_force Q plain_Q (square_sizing_Q (1 # 2)) 9 0 (st_p s1) bars = Ok Ftot /\
    @update Q plain_Q (st_p s1) Ftot = Ok p1 /\
    @claimed_converged Q plain_Q (square_sizing_Q (1 # 2)) Ftot (map unit_square_Q p1)
    = true /\
    exists s',
      @iterate Q plain_Q (square_sizing_Q (1 # 2)) (fixed_backend_Q eight_triangles)
        Qhull 10 5 9 0 (@initial_state Q plain_Q lattice_3x3_Q) = Ok (Break Converged s').
Proof.
  evar (s1 : state Q). evar (bars : list bar).
  evar (Ftot : list (list Q)). evar (p1 : list (list Q)).
  assert (Er : @retriangulate Q plain_Q (square_sizing_Q (1 # 2))
                 (fixed_backend_Q eight_triangles) Qhull
                 (@initial_state Q plain_Q lattice_3x3_Q) = Ok s1)
    by (unfold s1; vm_compute; reflexivity).
  assert (Eb : st_bars s1 = Some bars) by (unfold s1, bars; reflexivity).
  assert (Ef : @total_force Q plain_Q (square_sizing_Q (1 # 2)) 9 0 (st_p s1) bars = Ok Ftot)
    by (unfold s1, bars, Ftot; vm_compute; reflexivity).
  assert (Eu : @update Q plain_Q (st_p s1) Ftot = Ok p1)
    by (unfold s1, Ftot, p1; vm_compute; reflexivity).
  assert (Hn : 5%Z <> 0%Z) by discriminate.
  assert (Hc : @claimed_converged Q plain_Q (square_sizing_Q (1 # 2)) Ftot
                 (map unit_square_Q p1) = true)
    by (unfold Ftot, p1; vm_compute; reflexivity).
  exists s1, bars, Ftot, p1.
  split; [exact Er|]. split; [exact Eb|]. split; [exact Ef|]. split; [exact Eu|].
  split; [exact Hc|].
  exact (proj2 (proj1 (@converged_exactly_when_small_interior_move
                         (fun x => x) (fun _ x => x) 1000
                         (square_sizing_Q (1 # 2)) (fixed_backend_Q eight_triangles) Qhull
                         10 5 9 0 (@initial_state Q plain_Q lattice_3x3_Q)
                         s1 bars Ftot p1 Hn Er Eb Ef Eu)) Hc).
Defined.

(** ** The same kernels in binary64 *)

(** Whatever the rounding, line 215 leaves no negative force. *)
Lemma bar_force_float_not_negative (L0 L : float) :
  (bar_force L0 L <.? fzero) = false.
Proof.
  unfold bar_force.
  destruct (L0 -. L <.? fzero) eqn:E; [vm_compute; reflexivity | exact E].
Qed.

(** Line 240 returns [deps] or a value that is not below [deps]. *)
Lemma clamp_cases {F : Type} `{Arith F} (deps g2 : F) :
  clamp deps g2 = deps \/ (clamp deps g2 = g2 /\ (g2 <.? deps) = false).
Proof.
  unfold clamp. destruct (g2 <.? deps) eqn:E; [left | right]; auto.
Qed.

(** In binary64 a NaN reaches the result of [.max()]: a force that is
    not a number never passes the test of line 251, nor the one of the
    specification. *)
Lemma np_max_propagates_nan :
  np_max [0; nan; 0]%float = Ok nan /\
  max_displacement (square_sizing 0.5) [[0; 0]; [nan; 0]; [0; 0]]%float [-1; -1; -1]%float
  = Ok nan /\
  check (square_sizing 0.5) 10 5 (initial_state [[0.5; 0.5]; [0.5; 0.5]; [0.5; 0.5]]%float)
        [[0; 0]; [nan; 0]; [0; 0]]%float [-1; -1; -1]%float
  = Ok (Continue {| st_p := [[0.5; 0.5]; [0.5; 0.5]; [0.5; 0.5]]%float;
                    st_pold := Scalar infinity; st_t := None; st_bars := None;
                    st_count := 1 |}) /\
  claimed_converged (square_sizing 0.5) [[0; 0]; [nan; 0]; [0; 0]]%float [-1; -1; -1]%float
  = false.
Proof. repeat split; vm_compute; reflexivity. Qed.

(** On the 3 x 3 lattice of the unit square with [h0 = 0.5], binary64
    agrees with the exact result: the first iteration converges, and the
    test of the specification holds. *)
Lemma converged_in_binary64 :
  exists s1 Ftot d,
    advance (square_sizing 0.5) (fixed_backend eight_triangles) Qhull 9 0
      (initial_state [[0; 0]; [0; 0.5]; [0; 1]; [0.5; 0]; [0.5; 0.5]; [0.5; 1];
                      [1; 0]; [1; 0.5]; [1; 1]]%float) = Ok (s1, Ftot, d) /\
    claimed_converged (square_sizing 0.5) Ftot d = true /\
    iterate (square_sizing 0.5) (fixed_backend eight_triangles) Qhull 10 5 9 0
      (initial_state [[0; 0]; [0; 0.5]; [0; 1]; [0.5; 0]; [0.5; 0.5]; [0.5; 1];
                      [1; 0]; [1; 0.5]; [1; 1]]%float) = Ok (Break Converged s1).
Proof.
  eexists. eexists. eexists.
  split; [vm_compute; reflexivity|].
  split; vm_compute; reflexivity.
Qed.

(** Line 245: with [nscreen = 0], an iteration that reaches step 8a with
    an interior point raises [ZeroDivisionError], whatever [maxdp] is. *)
Lemma nscreen_zero_raises {F : Type} `{Num F}
    (sf : SizingFunction F) (backends : Backends F) (m : method) (max_iter : Z)
    (N nfix : nat) (s s1 : state F) (Ftot : list (list F)) (d : list F) (mx : F) :
  advance sf backends m N nfix s = Ok (s1, Ftot, d) ->
  max_displacement sf Ftot d = Ok mx ->
  iterate sf backends m max_iter 0 N nfix s = Raise ZeroDivisionError.
Proof.
  intros Ea Em. unfold iterate. rewrite Ea; cbn [bind].
  unfold check. rewrite Em; cbn [bind]. reflexivity.
Qed.

(** C4, as stated, fails for [nscreen = 0]: line 245 evaluates
    [count % nscreen] between the computation of [maxdp] and its test, so
    that the iteration raises [ZeroDivisionError].  On the 3 x 3 lattice of
    the unit square with [h0 = 0.5] the update goes through and the only
    interior point, the centre, does not move, yet [build] does not end
    as converged. *)
Lemma converged_with_nscreen_zero_counterexample :
  ~ (forall (nscreen : Z) (s1 : state float) (Ftot : list (list float)) (d : list float),
       advance (square_sizing 0.5) (fixed_backend eight_triangles) Qhull 9 0
         (initial_state [[0; 0]; [0; 0.5]; [0; 1]; [0.5; 0]; [0.5; 0.5]; [0.5; 1];
                         [1; 0]; [1; 0.5]; [1; 1]]%float) = Ok (s1, Ftot, d) ->
       (iterate (square_sizing 0.5) (fixed_backend eight_triangles) Qhull 10 nscreen 9 0
          (initial_state [[0; 0]; [0; 0.5]; [0; 1]; [0.5; 0]; [0.5; 0.5]; [0.5; 1];
                          [1; 0]; [1; 0.5]; [1; 1]]%float) = Ok (Break Converged s1)
        <-> claimed_converged (square_sizing 0.5) Ftot d = true)).
Proof.
  intros Hclaim.
  destruct (advance (square_sizing 0.5) (fixed_backend eight_triangles) Qhull 9 0
              (initial_state [[0; 0]; [0; 0.5]; [0; 1]; [0.5; 0]; [0.5; 0.5]; [0.5; 1];
                              [1; 0]; [1; 0.5]; [1; 1]]%float))
    as [[[s1 Ftot] d] | e] eqn:Ea; [|vm_compute in Ea; discriminate].
  destruct (Hclaim 0%Z s1 Ftot d eq_refl) as [_ Hfrom].
  vm_compute in Ea. inversion Ea; subst s1 Ftot d; clear Ea.
  specialize (Hfrom ltac:(vm_compute; reflexivity)).
  vm_compute in Hfrom. discriminate.
Qed.

(** ** A budget that is not positive *)

(** With [max_iter <= 0] the exit 8b is never taken. *)
Lemma budget_exit_needs_positive_max_iter {F : Type} `{Num F}
    (sf : SizingFunction F) (max_iter nscreen : Z)
    (s s' : state F) (Ftot : list (list F)) (d : list F) :
  (max_iter <= 0)%Z -> (0 <= st_count s)%Z ->
  check sf max_iter nscreen s Ftot d <> Ok (Break Budget s').
Proof.
  intros Hm Hc E. unfold check in E. inv_bind E.
  destruct (nscreen =? 0)%Z; [discriminate|].
  destruct (a <.? ptol *. h0 sf); [discriminate|].
  destruct (st_count s =? max_iter - 1)%Z eqn:Ec; [|discriminate].
  apply Z.eqb_eq in Ec. lia.
Qed.

(** * Further properties of [build] *)

(** ** Seeding: lines 117-144 *)

Lemma mask_select_In {A : Type} (m : list bool) (a : list A) (x : A) :
  In x (mask_select m a) -> In x a.
Proof.
  revert a; induction m as [|b m IH]; intros [|y a] Hx; simpl in Hx; try contradiction.
  destruct b; [destruct Hx as [-> | Hx]; [left; reflexivity|] |]; right; apply IH; assumption.
Qed.

Lemma filter_none {A : Type} (f : A -> bool) (l : list A) :
  (forall x, In x l -> f x = false) -> filter f l = [].
Proof.
  induction l as [|x l IH]; intros Hf; simpl; [reflexivity|].
  rewrite (Hf x (or_introl eq_refl)). apply IH. intros y Hy; apply Hf; right; assumption.
Qed.

Lemma firstn_length_app {A : Type} (a b : list A) : firstn (length a) (a ++ b) = a.
Proof.
  induction a as [|x a IH]; simpl; [destruct b; reflexivity | rewrite IH; reflexivity].
Qed.

Section Seeding.
Context {F : Type} `{Num F}.
Variable sf : SizingFunction F.

Lemma bbox_pairs_length_aux (b : list F) :
  (forall ps, bbox_pairs b = Ok ps -> length b = (2 * length ps)%nat) /\
  (forall x ps, bbox_pairs (x :: b) = Ok ps -> S (length b) = (2 * length ps)%nat).
Proof.
  induction b as [|y b [IH1 IH2]]; split.
  - intros ps E; inversion E; reflexivity.
  - intros x ps E; discriminate.
  - intros ps E. exact (IH2 y ps E).
  - intros x ps E. simpl in E. inv_bind E. inversion E; subst ps; simpl.
    rewrite (IH1 _ Ea). lia.
Qed.

Lemma bbox_pairs_length (b : list F) (ps : list (F * F)) :
  bbox_pairs b = Ok ps -> length b = (2 * length ps)%nat.
Proof. apply bbox_pairs_length_aux. Qed.

Lemma bbox_pairs_odd (b : list F) :
  Nat.odd (length b) = true -> bbox_pairs b = Raise ValueError_reshape.
Proof.
  intros Hodd. destruct (bbox_pairs b) as [ps | e] eqn:E.
  - apply bbox_pairs_length in E. rewrite E in Hodd.
    rewrite Nat.odd_mul in Hodd. discriminate.
  - f_equal. revert e E. clear Hodd.
    assert (Haux : (forall e, bbox_pairs b = Raise e -> e = ValueError_reshape) /\
                   (forall x e, bbox_pairs (x :: b) = Raise e -> e = ValueError_reshape)).
    { induction b as [|y b [IH1 IH2]]; split.
      - intros e E; discriminate.
      - intros x e E; inversion E; reflexivity.
      - intros e E. exact (IH2 y e E).
      - intros x e E. simpl in E.
        destruct (bbox_pairs b) as [ps|e'] eqn:Eb; simpl in E; [discriminate|].
        inversion E; subst e'. apply IH1; reflexivity. }
    apply Haux.
Qed.

Lemma grid_width (axes : list (list F)) (pt : list F) :
  In pt (grid axes) -> length pt = length axes.
Proof.
  revert pt; induction axes as [|ax rest IH]; intros pt Hpt; simpl in Hpt.
  - destruct Hpt as [<- | []]; reflexivity.
  - apply in_flat_map in Hpt. destruct Hpt as [x [_ Hx]].
    apply in_map_iff in Hx. destruct Hx as [q [<- Hq]].
    simpl. f_equal. apply IH; assumption.
Qed.

Lemma lattice_columns (lat : list (list F)) :
  lattice sf = Ok lat ->
  (1 <= dim sf)%nat /\
  length (bbox sf) = (2 * dim sf)%nat /\
  forall pt, In pt lat -> length pt = dim sf.
Proof.
  unfold lattice. intros E. inv_bind E.
  pose proof (bbox_pairs_length _ Ea) as Hlen.
  assert (Hdim : dim sf = length a).
  { unfold dim. rewrite Hlen. rewrite Nat.mul_comm. apply Nat.div_mul. discriminate. }
  destruct a as [|pr a]; [discriminate|].
  inv_bind E. inversion E; subst lat; clear E.
  pose proof (mapM_length _ _ Ea0) as Hax.
  repeat split.
  - rewrite Hdim; simpl; lia.
  - rewrite Hdim; exact Hlen.
  - intros pt Hpt. rewrite (grid_width _ _ Hpt), Hax, Hdim. reflexivity.
Qed.

(** X1: when the lattice of lines 135-136 is built, the box has an even,
    non-zero number of bounds, twice the dimension, and every lattice node
    has [dim] coordinates. *)
Theorem lattice_has_dim_columns (lat : list (list F)) :
  lattice sf = Ok lat ->
  (1 <= dim sf)%nat /\
  length (bbox sf) = (2 * dim sf)%nat /\
  forall pt, In pt lat -> length pt = dim sf.
Proof.
  exact (@lattice_columns lat).
Qed.

(** X2: the array that [build] starts from is the fixed points, in the
    order given, followed by lattice nodes whose signed distance is below
    [geps]; it has [nfix] rows more than nodes were kept and every row has
    [dim] coordinates. *)
Theorem seeded_points_start_with_fixed_points
    (pfix : option (list (list F))) (rand : nat -> F) (p : list (list F)) :
  seed_points sf pfix rand = Ok p ->
  exists lat survivors,
    lattice sf = Ok lat /\
    p = match pfix with Some rows => rows | None => [] end ++ survivors /\
    firstn (nfix_of pfix) p = match pfix with Some rows => rows | None => [] end /\
    length p = (nfix_of pfix + length survivors)%nat /\
    (forall x, In x survivors -> In x lat /\ (fd sf x <.? geps sf) = true) /\
    (forall x, In x p -> length x = dim sf).
Proof.
  unfold seed_points. intros E. inv_bind E. inv_bind E. inv_bind E.
  inversion E; subst p; clear E.
  set (kept := filter (fun x => fd sf x <.? geps sf) a).
  set (keep := map2 _ _ _).
  assert (Hfix : a1 = match pfix with Some rows => rows | None => [] end /\
                 length a1 = nfix_of pfix /\
                 forall x, In x a1 -> length x = dim sf).
  { unfold fixed_points in Ea1. destruct pfix as [[|r rows]|].
    - discriminate.
    - destruct (forallb _ _) eqn:Ew in Ea1; [|discriminate].
      inversion Ea1; subst a1. repeat split.
      intros x Hx. rewrite forallb_forall in Ew. apply Nat.eqb_eq. apply Ew; assumption.
    - inversion Ea1; subst a1. repeat split. intros x []. }
  destruct Hfix as (Hrows & Hn & Hw).
  assert (Hsurv : forall x, In x (mask_select keep kept) ->
                  In x a /\ (fd sf x <.? geps sf) = true).
  { intros x Hx. apply mask_select_In in Hx. unfold kept in Hx.
    apply filter_In in Hx. exact Hx. }
  exists a, (mask_select keep kept).
  split; [exact Ea|]. split; [rewrite Hrows; reflexivity|].
  split; [rewrite <- Hn, <- Hrows; apply firstn_length_app|].
  split; [rewrite length_app, Hn; reflexivity|].
  split; [exact Hsurv|].
  intros x Hx. apply in_app_or in Hx. destruct Hx as [Hx | Hx]; [apply Hw; assumption|].
  destruct (Hsurv x Hx) as [Hlat _].
  exact (proj2 (proj2 (lattice_columns Ea)) x Hlat).
Qed.

(** X3: when no lattice node has a signed distance below [geps], line 142
    takes the minimum of an empty array and seeding raises [ValueError],
    fixed points or not. *)
Theorem seeding_raises_without_interior_node
    (pfix : option (list (list F))) (rand : nat -> F) (lat : list (list F)) :
  lattice sf = Ok lat ->
  (forall x, In x lat -> (fd sf x <.? geps sf) = false) ->
  seed_points sf pfix rand = Raise ValueError_zero_size.
Proof.
  intros El Hout. unfold seed_points. rewrite El; simpl.
  rewrite (filter_none _ _ Hout). reflexivity.
Qed.

End Seeding.

Lemma lattice_has_dim_columns_witness :
  lattice (square_sizing 0.5)
  = Ok [[0; 0]; [0; 0.5]; [0; 1]; [0.5; 0]; [0.5; 0.5]; [0.5; 1];
        [1; 0]; [1; 0.5]; [1; 1]]%float /\
  (1 <= dim (square_sizing 0.5))%nat /\
  length (bbox (square_sizing 0.5)) = (2 * dim (square_sizing 0.5))%nat /\
  forall pt,
    In pt [[0; 0]; [0; 0.5]; [0; 1]; [0.5; 0]; [0.5; 0.5]; [0.5; 1];
           [1; 0]; [1; 0.5]; [1; 1]]%float ->
    length pt = dim (square_sizing 0.5).
Proof.
  split; [vm_compute; reflexivity|].
  apply lattice_has_dim_columns. vm_compute; reflexivity.
Defined.

Lemma seeded_points_start_with_fixed_points_witness :
  seed_points (square_sizing 1) (Some [[0.5; 0.25]]%float) (rng_draw half_rng tt)
  = Ok [[0.5; 0.25]; [0; 0]; [0; 1]; [1; 0]; [1; 1]]%float /\
  exists lat survivors,
    lattice (square_sizing 1) = Ok lat /\
    [[0.5; 0.25]; [0; 0]; [0; 1]; [1; 0]; [1; 1]]%float
    = [[0.5; 0.25]]%float ++ survivors /\
    firstn 1 [[0.5; 0.25]; [0; 0]; [0; 1]; [1; 0]; [1; 1]]%float = [[0.5; 0.25]]%float /\
    length [[0.5; 0.25]; [0; 0]; [0; 1]; [1; 0]; [1; 1]]%float = (1 + length survivors)%nat /\
    (forall x, In x survivors ->
               In x lat /\ (fd (square_sizing 1) x <.? geps (square_sizing 1)) = true) /\
    (forall x, In x [[0.5; 0.25]; [0; 0]; [0; 1]; [1; 0]; [1; 1]]%float ->
               length x = dim (square_sizing 1)).
Proof.
  split; [vm_compute; reflexivity|].
  apply (@seeded_points_start_with_fixed_points float fl (square_sizing 1)
           (Some [[0.5; 0.25]]%float) (rng_draw half_rng tt)).
  vm_compute; reflexivity.
Defined.

Lemma seeding_raises_without_interior_node_witness :
  lattice nowhere_sizing = Ok [[0; 0]; [0; 1]; [1; 0]; [1; 1]]%float /\
  (forall x, In x [[0; 0]; [0; 1]; [1; 0]; [1; 1]]%float ->
             (fd nowhere_sizing x <.? geps nowhere_sizing) = false) /\
  seed_points nowhere_sizing (Some [[0.5; 0.5]]%float) (rng_draw half_rng tt)
  = Raise ValueError_zero_size.
Proof.
  split; [vm_compute; reflexivity|].
  split; [intros x _; vm_compute; reflexivity|].
  apply (@seeding_raises_without_interior_node float fl nowhere_sizing
           (Some [[0.5; 0.5]]%float) (rng_draw half_rng tt)
           [[0; 0]; [0; 1]; [1; 0]; [1; 1]]%float).
  - vm_compute; reflexivity.
  - intros x _; vm_compute; reflexivity.
Defined.

(** X4: a box with an odd number of bounds, or with none, is rejected by
    the reshapes of lines 118 and 136: [build] raises [ValueError] before
    any point is seeded, whatever the other arguments. *)
Theorem malformed_bbox_raises {F : Type} `{Num F}
    (sf : SizingFunction F) (backends : Backends F) (m : method)
    (R : Rng F) (g : rng_state R) (pfix : option (list (list F)))
    (max_iter nscreen : Z) (seed : option Z) (fuel : nat) :
  Nat.odd (length (bbox sf)) = true \/ bbox sf = [] ->
  build sf backends m R g pfix max_iter nscreen seed fuel = Error ValueError_reshape.
Proof.
  intros Hb. unfold build, run_build, seed_points, lattice.
  destruct Hb as [Hodd | Hnil].
  - rewrite (bbox_pairs_odd _ Hodd). reflexivity.
  - rewrite Hnil. reflexivity.
Qed.

Lemma malformed_bbox_raises_witness :
  (Nat.odd (length (bbox {| fd := unit_square; fh := fun _ => 1%float;
                            hmin := 1%float; bbox := [0; 1; 0]%float |})) = true
   \/ bbox {| fd := unit_square; fh := fun _ => 1%float;
              hmin := 1%float; bbox := [0; 1; 0]%float |} = []) /\
  build {| fd := unit_square; fh := fun _ => 1%float;
           hmin := 1%float; bbox := [0; 1; 0]%float |}
        (fixed_backend two_triangles) Qhull half_rng tt None 10 5 (Some 1%Z) 10
  = Error ValueError_reshape.
Proof.
  split; [left; reflexivity|].
  apply malformed_bbox_raises. left; reflexivity.
Defined.

(** ** [np.unique]: line 160 *)

Section UniqueRows.
Context {F : Type} `{Arith F}.

Lemma insert_row_In (x y : list F) (l : list (list F)) :
  In y (insert_row x l) -> y = x \/ In y l.
Proof.
  induction l as [|z l IH]; simpl.
  - intros [<- | []]; left; reflexivity.
  - destruct (row_eqb x z); [intros Hy; right; exact Hy|].
    destruct (row_ltb x z).
    + intros [<- | Hy]; [left; reflexivity | right; exact Hy].
    + intros [<- | Hy]; [right; left; reflexivity|].
      destruct (IH Hy) as [-> | Hl]; [left; reflexivity | right; right; exact Hl].
Qed.

Lemma insert_row_length (x : list F) (l : list (list F)) :
  (length (insert_row x l) <= S (length l))%nat.
Proof.
  induction l as [|z l IH]; simpl; [lia|].
  destruct (row_eqb x z); [simpl; unfold vec; lia|].
  destruct (row_ltb x z); simpl; [unfold vec; lia | apply le_n_S; exact IH].
Qed.

Lemma np_unique_In (p : list (list F)) (y : list F) :
  In y (np_unique p) -> In y p.
Proof.
  induction p as [|x p IH]; simpl; [tauto|].
  intros Hy. destruct (insert_row_In _ _ _ Hy) as [-> | Hl]; [left; reflexivity|].
  right; apply IH; exact Hl.
Qed.

Lemma np_unique_length (p : list (list F)) :
  (length (np_unique p) <= length p)%nat.
Proof.
  induction p as [|x p IH]; simpl; [lia|].
  eapply Nat.le_trans; [apply insert_row_length|].
  apply le_n_S; exact IH.
Qed.

End UniqueRows.

Ltac Qcompare_cases :=
  repeat match goal with
         | H : context [if Qltb ?a ?b then _ else _] |- _ => destruct (Qltb a b) eqn:?
         | |- context [if Qltb ?a ?b then _ else _] => destruct (Qltb a b) eqn:?
         end;
  repeat match goal with
         | H : Qltb _ _ = true |- _ => apply Qltb_lt in H
         | H : Qltb _ _ = false |- _ => apply Qltb_ge in H
         end.

Lemma Qrow_eqb_eq (a b : list Q) : row_eqb a b = true <-> row_eq a b.
Proof.
  unfold row_eq. revert b; induction a as [|x a IH]; intros [|y b];
    cbn [row_eqb feqb Q_arith].
  - split; [constructor | reflexivity].
  - split; [discriminate | intros E; inversion E].
  - split; [discriminate | intros E; inversion E].
  - rewrite andb_true_iff, Qeq_bool_iff, IH. split.
    + intros [Hxy Hab]; constructor; assumption.
    + intros E; inversion E; subst; split; assumption.
Qed.

Lemma Qrow_lt_not_eq (a b : list Q) : row_ltb a b = true -> row_eqb a b = false.
Proof.
  revert b; induction a as [|x a IH]; intros [|y b]; cbn [row_ltb row_eqb fltb feqb Q_arith];
    try discriminate; try reflexivity.
  intros E. destruct (Qeq_bool x y) eqn:Exy; [|reflexivity]. simpl.
  apply Qeq_bool_iff in Exy. Qcompare_cases; try (exfalso; lra).
  apply IH; assumption.
Qed.

Lemma Qrow_total (a b : list Q) :
  row_eqb a b = false -> row_ltb a b = false -> row_ltb b a = true.
Proof.
  revert b; induction a as [|x a IH]; intros [|y b]; cbn [row_ltb row_eqb fltb feqb Q_arith];
    try discriminate; try reflexivity.
  intros Eeq Elt. Qcompare_cases; try discriminate; try reflexivity; try (exfalso; lra).
  assert (Exy : Qeq_bool x y = true) by (apply Qeq_bool_iff; lra).
  rewrite Exy in Eeq. simpl in Eeq. apply IH; assumption.
Qed.

Lemma Qrow_trans (a b c : list Q) :
  row_ltb a b = true -> row_ltb b c = true -> row_ltb a c = true.
Proof.
  revert b c; induction a as [|x a IH]; intros [|y b] [|z c];
    cbn [row_ltb fltb Q_arith]; try discriminate; try reflexivity.
  intros Eab Ebc. Qcompare_cases; try discriminate; try reflexivity; try (exfalso; lra).
  eapply IH; eassumption.
Qed.

Lemma insert_row_sorted (x : list Q) (l : list (list Q)) :
  Sorted row_lt l -> Sorted row_lt (insert_row x l).
Proof.
  induction l as [|y l IH]; intros Hs; simpl.
  - repeat constructor.
  - destruct (row_eqb x y) eqn:Eeq; [exact Hs|].
    destruct (row_ltb x y) eqn:Elt.
    + constructor; [exact Hs | constructor; exact Elt].
    + inversion Hs as [|? ? Hl Hhd]; subst.
      constructor; [apply IH; exact Hl|].
      pose proof (Qrow_total _ _ Eeq Elt) as Hyx.
      destruct l as [|z l]; simpl.
      * constructor; exact Hyx.
      * inversion Hhd; subst.
        destruct (row_eqb x z); [constructor; assumption|].
        destruct (row_ltb x z); constructor; assumption.
Qed.

Lemma Qrow_eq_refl (x : list Q) : row_eq x x.
Proof. unfold row_eq. induction x; constructor; [reflexivity | assumption]. Qed.

Lemma insert_row_keeps (x : list Q) (l : list (list Q)) :
  (exists y, In y (insert_row x l) /\ row_eq x y) /\
  (forall z, In z l -> In z (insert_row x l)).
Proof.
  induction l as [|y l [[w [Hw Hxw]] IHl]]; simpl.
  - split; [|intros z []].
    exists x; split; [left; reflexivity | apply Qrow_eq_refl].
  - destruct (row_eqb x y) eqn:Eeq.
    + split; [|auto].
      exists y; split; [left; reflexivity | apply Qrow_eqb_eq; exact Eeq].
    + destruct (row_ltb x y).
      * split; [|intros z Hz; right; exact Hz].
        exists x; split; [left; reflexivity | apply Qrow_eq_refl].
      * split; [exists w; split; [right; exact Hw | exact Hxw]|].
        intros z [<- | Hz]; [left; reflexivity | right; apply IHl; exact Hz].
Qed.

Lemma Qrow_eq_sym (a b : list Q) : row_eq a b -> row_eq b a.
Proof.
  unfold row_eq. intros E; induction E; constructor; [symmetry; assumption | assumption].
Qed.

Lemma np_unique_locally_sorted (p : list (list Q)) : Sorted row_lt (np_unique p).
Proof.
  induction p as [|x p IH]; simpl; [constructor | apply insert_row_sorted; exact IH].
Qed.

Lemma StronglySorted_In_cases {A : Type} (R : A -> A -> Prop) (l : list A) (a b : A) :
  StronglySorted R l -> In a l -> In b l -> a = b \/ R a b \/ R b a.
Proof.
  intros Hs; induction Hs as [|x l Hs IH Hall]; intros Ha Hb; [destruct Ha|].
  rewrite Forall_forall in Hall.
  destruct Ha as [<- | Ha], Hb as [<- | Hb]; auto.
Qed.

(** X6: in exact arithmetic, [np.unique(p, axis=0)] returns rows of [p] in
    strictly increasing lexicographic order: every row of [p] is there up
    to the equality of its coordinates, and no two rows of the result
    have equal coordinates.  The order of [p] is lost. *)
Theorem np_unique_sorted_and_distinct (p : list (list Q)) :
  StronglySorted row_lt (np_unique p) /\
  (forall y, In y (np_unique p) -> In y p) /\
  (forall x, In x p -> exists y, In y (np_unique p) /\ row_eq x y) /\
  (forall a b, In a (np_unique p) -> In b (np_unique p) -> row_eq a b -> a = b).
Proof.
  assert (Hs : StronglySorted row_lt (np_unique p)).
  { apply Sorted_StronglySorted; [|apply np_unique_locally_sorted].
    intros a b c. apply Qrow_trans. }
  split; [exact Hs|]. split; [apply np_unique_In|]. split.
  - induction p as [|x p IH]; intros x' Hx'; [destruct Hx'|].
    simpl. destruct (insert_row_keeps x (np_unique p)) as [Hx Hrest].
    destruct Hx' as [<- | Hx']; [exact Hx|].
    assert (Hs' : StronglySorted row_lt (np_unique p)).
    { apply Sorted_StronglySorted; [|apply np_unique_locally_sorted].
      intros a b c. apply Qrow_trans. }
    destruct (IH Hs' x' Hx') as [y [Hy Hxy]].
    exists y; split; [apply Hrest; exact Hy | exact Hxy].
  - intros a b Ha Hb Hab.
    destruct (@StronglySorted_In_cases _ _ _ a b Hs Ha Hb) as [E | [Hlt | Hlt]]; [exact E | |];
      exfalso; apply Qrow_lt_not_eq in Hlt.
    + apply Qrow_eqb_eq in Hab. congruence.
    + apply Qrow_eq_sym, Qrow_eqb_eq in Hab. congruence.
Qed.

(** Two equal rows and a smaller one: the copy goes, the order changes. *)
Lemma np_unique_example :
  np_unique [[1; 0]; [0; 1]; [1; 0]]%Q = [[0; 1]; [1; 0]]%Q.
Proof. reflexivity. Qed.

(** ** Shapes: lines 206-226 *)

Lemma set_row_length {A : Type} (i : nat) (v : A) (M : list A) :
  length (set_row i v M) = length M.
Proof.
  revert i; induction M as [|x M IH]; intros [|i]; simpl; auto.
Qed.

Lemma map2_length {A B C : Type} (f : A -> B -> C) (a : list A) (b : list B) :
  length a = length b -> length (map2 f a b) = length a.
Proof.
  revert b; induction a as [|x a IH]; intros [|y b] E; simpl in E; try discriminate; simpl;
    [reflexivity | f_equal; apply IH; lia].
Qed.

Lemma mapM_all_Ok {A B : Type} (f : A -> result B) (l : list A) (bs : list B) :
  mapM f l = Ok bs -> forall a, In a l -> exists b, f a = Ok b /\ In b bs.
Proof.
  revert bs; induction l as [|x l IH]; intros bs E a Ha; simpl in E; [destruct Ha|].
  inv_bind E. inv_bind E. inversion E; subst bs; clear E.
  destruct Ha as [<- | Ha].
  - eexists; split; [eassumption | left; reflexivity].
  - destruct (IH _ Ea1 _ Ha) as [b [Hb Hin]]. exists b; split; [exact Hb | right; exact Hin].
Qed.

Section Shapes.
Context {F : Type} `{Num F}.
Variable sf : SizingFunction F.

Lemma add_at_length (i : nat) (v : list F) (acc acc' : list (list F)) :
  add_at i v acc = Ok acc' -> length acc' = length acc.
Proof.
  unfold add_at. destruct (nth_error acc i); [|discriminate].
  intros E; inversion E. apply set_row_length.
Qed.

Lemma dense_length (bars : list bar) :
  forall (Fvec acc acc' : list (list F)),
  dense bars Fvec acc = Ok acc' -> length acc' = length acc.
Proof.
  induction bars as [|[a b] bars IH]; intros Fvec acc acc' E; simpl in E.
  - inversion E; reflexivity.
  - destruct Fvec as [|v Fvec]; [inversion E; reflexivity|].
    inv_bind E. inv_bind E.
    rewrite (IH _ _ _ E), (add_at_length _ _ _ Ea1), (add_at_length _ _ _ Ea0).
    reflexivity.
Qed.

Lemma zero_prefix_length (n : nat) (M : list (list F)) :
  length (zero_prefix sf n M) = length M.
Proof.
  revert M; induction n as [|n IH]; intros [|r M]; simpl; auto.
Qed.

Lemma zero_prefix_nth (n i : nat) (M : list (list F)) :
  (i < n)%nat -> (i < length M)%nat ->
  nth_error (zero_prefix sf n M) i = Some (zeros (dim sf)).
Proof.
  revert i M; induction n as [|n IH]; intros i [|r M] Hn Hi; simpl in Hi; try lia.
  destruct i as [|i]; simpl; [reflexivity | apply IH; lia].
Qed.

Lemma total_force_rows (N nfix : nat) (p : list (list F)) (bars : list bar)
    (Ftot : list (list F)) :
  total_force sf N nfix p bars = Ok Ftot ->
  length Ftot = N /\
  forall i, (i < nfix)%nat -> (i < N)%nat -> nth_error Ftot i = Some (zeros (dim sf)).
Proof.
  unfold total_force. intros E. inv_bind E. inv_bind E. inversion E; subst Ftot; clear E.
  pose proof (dense_length _ _ _ Ea0) as Hlen. rewrite repeat_length in Hlen.
  split; [rewrite zero_prefix_length; exact Hlen|].
  intros i Hn Hi. apply zero_prefix_nth; [exact Hn | rewrite Hlen; exact Hi].
Qed.

(** X7: the force array of lines 206-225 has [N] rows, the [shape] given
    to [dense], and its first [nfix] rows are zero. *)
Theorem total_force_shape (N nfix : nat) (p : list (list F)) (bars : list bar)
    (Ftot : list (list F)) :
  total_force sf N nfix p bars = Ok Ftot ->
  length Ftot = N /\
  forall i, (i < nfix)%nat -> (i < N)%nat -> nth_error Ftot i = Some (zeros (dim sf)).
Proof.
  exact (@total_force_rows N nfix p bars Ftot).
Qed.

Lemma update_lengths (p Ftot p' : list (list F)) :
  update p Ftot = Ok p' -> length p = length Ftot /\ length p' = length p.
Proof.
  unfold update. destruct (Nat.eqb (length p) (length Ftot)) eqn:E; [|discriminate].
  apply Nat.eqb_eq in E. intros Eu; inversion Eu. split; [exact E|].
  apply map2_length; exact E.
Qed.

Lemma project_rows_length (dm : nat) (dp : F) (p : list (list F)) :
  length (fst (project (fd sf) dm dp p)) = length p.
Proof.
  unfold project. destruct (existsb _ _); cbn [fst]; [apply map2_map_length | reflexivity].
Qed.

End Shapes.

Lemma total_force_shape_witness :
  exists Ftot,
    total_force (square_sizing 1) 5 1
      [[0; 0]; [0; 1]; [0.5; 0.25]; [1; 0]; [1; 1]]%float
      [(0, 1); (0, 2); (1, 2); (2, 4); (2, 3); (1, 4); (3, 4)]%nat = Ok Ftot /\
    length Ftot = 5%nat /\
    forall i, (i < 1)%nat -> (i < 5)%nat ->
              nth_error Ftot i = Some (zeros (dim (square_sizing 1))).
Proof.
  eexists. split; [vm_compute; reflexivity|].
  apply (@total_force_shape float fl (square_sizing 1) 5 1
           [[0; 0]; [0; 1]; [0.5; 0.25]; [1; 0]; [1; 1]]%float
           [(0, 1); (0, 2); (1, 2); (2, 4); (2, 3); (1, 4); (3, 4)]%nat).
  vm_compute; reflexivity.
Defined.

(** ** What every completed iteration establishes *)

Lemma columns_all (i j : nat) (t : list simplex) (bs : list bar) :
  columns i j t = Ok bs ->
  forall x, In x t -> (i < length x)%nat /\ (j < length x)%nat.
Proof.
  intros E x Hx. destruct (mapM_all_Ok _ _ E _ Hx) as [b [Hb _]].
  destruct (nth_error x i) eqn:Ei; [|discriminate].
  destruct (nth_error x j) eqn:Ej; [|discriminate].
  split; apply nth_error_Some; congruence.
Qed.

Lemma make_bars_dim (dm : nat) (t : list simplex) (bars : list bar) :
  make_bars dm t = Ok bars -> dm = 2%nat \/ dm = 3%nat.
Proof.
  destruct dm as [|[|[|[|n]]]]; simpl; try discriminate; auto.
Qed.

Lemma make_bars_width (dm : nat) (t : list simplex) (bars : list bar) :
  make_bars dm t = Ok bars -> forall x, In x t -> (dm < length x)%nat.
Proof.
  intros E x Hx.
  destruct dm as [|[|[|[|n]]]]; simpl in E; try discriminate.
  - inv_bind E. inv_bind E. exact (proj2 (columns_all _ _ _ Ea0 x Hx)).
  - inv_bind E. inv_bind E. inv_bind E. inv_bind E. exact (proj2 (columns_all _ _ _ Ea2 x Hx)).
Qed.

Ltac use_column Hcol :=
  match goal with
  | Hc : columns ?i ?j _ = Ok ?bs, Hb : In _ (map sort_pair ?bs) |- _ =>
      exact (Hcol i j bs Hc Hb)
  end.

Lemma make_bars_endpoints (dm : nat) (t : list simplex) (bars : list bar) :
  make_bars dm t = Ok bars ->
  forall b, In b bars -> exists x, In x t /\ In (fst b) x /\ In (snd b) x.
Proof.
  intros E b Hb.
  assert (Hcol : forall i j bs, columns i j t = Ok bs -> In b (map sort_pair bs) ->
                 exists x, In x t /\ In (fst b) x /\ In (snd b) x).
  { intros i j bs Ec Hin. apply in_map_iff in Hin. destruct Hin as [[u v] [<- Huv]].
    destruct (columns_In _ _ _ Ec _ _ Huv) as [x [Hx [Hi Hj]]].
    apply nth_error_In in Hi. apply nth_error_In in Hj.
    exists x; split; [exact Hx|]. unfold sort_pair; simpl.
    destruct (Nat.min_spec u v) as [[_ ->] | [_ ->]];
      destruct (Nat.max_spec u v) as [[_ ->] | [_ ->]]; auto. }
  destruct dm as [|[|[|[|n]]]]; simpl in E; try discriminate.
  - inv_bind E. inv_bind E. inv_bind E. inversion E; subst bars; clear E.
    apply (proj1 (unique_rows_In _ _)) in Hb. rewrite !map_app, !in_app_iff in Hb.
    destruct Hb as [Hb | [Hb | Hb]]; use_column Hcol.
  - inv_bind E. inv_bind E. inv_bind E. inv_bind E. inv_bind E. inv_bind E.
    inversion E; subst bars; clear E.
    apply (proj1 (unique_rows_In _ _)) in Hb. rewrite !map_app, !in_app_iff in Hb.
    destruct Hb as [Hb | [Hb | [Hb | [Hb | [Hb | Hb]]]]]; use_column Hcol.
Qed.

Section ShapeInvariant.
Context {F : Type} `{Num F}.
Variable sf : SizingFunction F.
Variable backends : Backends F.
Variable m : method.
Variable max_iter nscreen : Z.
Variable N nfix : nat.

Lemma gather_in_range (p : list (list F)) (s : list nat) (rows : list (list F)) :
  gather p s = Ok rows -> forall i, In i s -> (i < length p)%nat.
Proof.
  intros E i Hi. destruct (mapM_all_Ok _ _ E _ Hi) as [b [Hb _]].
  apply nth_error_Some. destruct (nth_error p i); [discriminate | discriminate].
Qed.

Lemma kept_simplices_in_range (p : list (list F)) (t : list simplex) :
  kept_by_filter sf p t -> forall x, In x t -> forall i, In i x -> (i < length p)%nat.
Proof.
  intros Hk x Hx i Hi. destruct (Hk x Hx) as [c [Ec _]].
  unfold centroid in Ec. inv_bind Ec. eapply gather_in_range; eassumption.
Qed.

Lemma retriangulate_shapes (s s1 : state F) :
  started_or_shaped sf m N s ->
  retriangulate sf backends m s = Ok s1 ->
  s1 = s \/
  ((dim sf = 2%nat \/ dim sf = 3%nat) /\ m <> OtherMethod /\
   exists t bars,
     st_pold s1 = Rows (st_p s1) /\ st_t s1 = Some t /\ st_bars s1 = Some bars /\
     (forall x, In x t -> (dim sf < length x)%nat /\
                          forall i, In i x -> (i < length (st_p s1))%nat) /\
     (forall b, In b bars -> (fst b < length (st_p s1))%nat /\
                             (snd b < length (st_p s1))%nat)).
Proof.
  intros Hpre E. unfold retriangulate in E. inv_bind E.
  destruct a; [|inversion E; left; reflexivity].
  inv_bind E. inv_bind E. inv_bind E. inversion E; subst s1; clear E. right; simpl.
  pose proof (interior_simplices_kept _ _ _ Ea1) as Hk.
  pose proof (kept_simplices_in_range Hk) as Hrange.
  split; [eapply make_bars_dim; eassumption|]. split.
  - intros Em. unfold delaunay in Ea0. rewrite Em in Ea0.
    destruct (st_t s) eqn:Et; [|discriminate].
    destruct Hpre as [Hs | [Hn _]]; [|congruence].
    destruct Hs as (_ & _ & Hm & _). exact (Hm Em).
  - exists a0, a1.
    split; [reflexivity|]. split; [reflexivity|]. split; [reflexivity|]. split.
    + intros x Hx. split; [eapply make_bars_width; eassumption|].
      intros i Hi. eapply Hrange; eassumption.
    + intros b Hb. destruct (make_bars_endpoints _ _ Ea2 _ Hb) as [x [Hx [Hf Hs]]].
      split; eapply Hrange; eassumption.
Qed.

Lemma advance_shaped (s s1 : state F) (Ftot : list (list F)) (d : list F) :
  started_or_shaped sf m N s ->
  advance sf backends m N nfix s = Ok (s1, Ftot, d) ->
  mesh_shaped sf m N s1 /\ st_count s1 = st_count s.
Proof.
  intros Hpre E. unfold advance in E. inv_bind E.
  pose proof (proj1 (@retriangulate_spec _ _ _ _ _ _ _ Ea)) as Hcount.
  pose proof (retriangulate_shapes Hpre Ea) as Hre.
  inv_bind E. inv_bind E. inv_bind E.
  destruct (project (fd sf) (dim sf) (deps sf) a2) as [p' d'] eqn:Ep.
  inversion E; subst s1 Ftot d; clear E.
  destruct (total_force_rows _ _ _ _ _ Ea1) as [HF _].
  destruct (update_lengths _ _ Ea2) as [Hp Hp2].
  assert (Hp' : length p' = N).
  { replace p' with (fst (project (fd sf) (dim sf) (deps sf) a2)) by (rewrite Ep; reflexivity).
    rewrite project_rows_length. congruence. }
  split; [|exact Hcount].
  destruct Hre as [-> | (Hdim & Hm & t & bars & Hq & Ht & Hb & Hsimp & Hbars)].
  - destruct Hpre as [Hs | [_ Hn]]; [|rewrite Hn in Ea0; discriminate].
    destruct Hs as (_ & Hdim & Hm & q & t & bars & Hq & Hlq & Ht & Hb & Hsimp & Hbars).
    split; [exact Hp'|]. split; [exact Hdim|]. split; [exact Hm|].
    exists q, t, bars; simpl. repeat (split; [assumption|]); assumption.
  - split; [exact Hp'|]. split; [exact Hdim|]. split; [exact Hm|].
    exists (st_p a), t, bars; simpl.
    assert (HN : length (st_p a) = N) by congruence.
    rewrite HN in Hsimp, Hbars. repeat (split; [assumption|]); assumption.
Qed.

Lemma iterate_shaped (s : state F) (st : step F) :
  started_or_shaped sf m N s ->
  iterate sf backends m max_iter nscreen N nfix s = Ok st ->
  match st with
  | Break r s' =>
      mesh_shaped sf m N s' /\ st_count s' = st_count s /\
      (r = Budget -> st_count s = (max_iter - 1)%Z)
  | Continue s' => mesh_shaped sf m N s' /\ st_count s' = (st_count s + 1)%Z
  end.
Proof.
  intros Hpre E. unfold iterate in E. inv_bind E. destruct a as [[s1 Ftot] d].
  destruct (advance_shaped Hpre Ea) as [Hs Hc].
  unfold check in E. inv_bind E.
  destruct (nscreen =? 0)%Z; [discriminate|].
  destruct (a <.? ptol *. h0 sf).
  - inversion E; subst st. split; [exact Hs|]. split; [exact Hc | discriminate].
  - destruct (st_count s1 =? max_iter - 1)%Z eqn:Ec; inversion E; subst st.
    + apply Z.eqb_eq in Ec. split; [exact Hs|]. split; [exact Hc | intros _; lia].
    + split; [|simpl; lia].
      destruct Hs as (Hp & Hdim & Hm & q & t & bars & Hq & Hlq & Ht & Hb & Hrest).
      split; [exact Hp|]. split; [exact Hdim|]. split; [exact Hm|].
      exists q, t, bars; simpl. repeat (split; [assumption|]); assumption.
Qed.

Lemma loop_shaped (fuel : nat) :
  forall (s s' : state F) (r : reason),
  started_or_shaped sf m N s ->
  loop sf backends m max_iter nscreen N nfix fuel s = Returned r s' ->
  mesh_shaped sf m N s' /\
  (st_count s <= st_count s' < st_count s + Z.of_nat fuel)%Z /\
  (r = Budget -> st_count s' = (max_iter - 1)%Z).
Proof.
  induction fuel as [|n IH]; intros s s' r Hpre E; simpl in E; [discriminate|].
  destruct (iterate sf backends m max_iter nscreen N nfix s) as [[s1 | r1 s1] | e] eqn:Ei;
    try discriminate.
  - destruct (iterate_shaped Hpre Ei) as [Hs Hc].
    destruct (IH s1 s' r (or_introl Hs) E) as (Hs' & Hcount & Hb).
    split; [exact Hs'|]. split; [lia | exact Hb].
  - inversion E; subst r1 s1. destruct (iterate_shaped Hpre Ei) as (Hs & Hc & Hb).
    split; [exact Hs|]. split; [lia|]. intros Hr. rewrite Hc. apply Hb; exact Hr.
Qed.

End ShapeInvariant.

(** ** What [build] returns *)

Section Returned.
Context {F : Type} `{Num F}.
Variable sf : SizingFunction F.
Variable backends : Backends F.
Variable m : method.
Variable R : Rng F.
Variable g : rng_state R.
Variable pfix : option (list (list F)).
Variable max_iter nscreen : Z.
Variable seed : option Z.

Lemma run_build_shaped (fuel : nat) (r : reason) (s : state F) :
  run_build sf backends m R g pfix max_iter nscreen seed fuel = Returned r s ->
  exists p0,
    seed_points sf pfix (rng_draw R match seed with
                                    | Some x => rng_seed R x
                                    | None => g
                                    end) = Ok p0 /\
    mesh_shaped sf m (length p0) s /\
    (0 <= st_count s < Z.of_nat fuel)%Z /\
    (r = Budget -> st_count s = (max_iter - 1)%Z).
Proof.
  unfold run_build. intros E.
  destruct (seed_points sf pfix _) as [p0 | e]; [|discriminate].
  exists p0. split; [reflexivity|].
  assert (Hpre : started_or_shaped sf m (length p0) (initial_state p0))
    by (right; split; reflexivity).
  destruct (loop_shaped _ _ _ _ _ Hpre E) as (Hs & Hc & Hb).
  simpl in Hc. auto.
Qed.

(** X8: the two arrays that [build] returns fit together: the point array
    has as many rows as were seeded, every simplex has at least [dim + 1]
    vertices and every vertex index is a row of the point array. *)
Theorem returned_mesh_is_well_formed (fuel : nat) (p : list (list F)) (t : list simplex) :
  build sf backends m R g pfix max_iter nscreen seed fuel = Return p t ->
  exists p0,
    seed_points sf pfix (rng_draw R match seed with
                                    | Some x => rng_seed R x
                                    | None => g
                                    end) = Ok p0 /\
    length p = length p0 /\
    forall x, In x t -> (dim sf < length x)%nat /\ forall i, In i x -> (i < length p)%nat.
Proof.
  unfold build. intros E.
  destruct (run_build sf backends m R g pfix max_iter nscreen seed fuel)
    as [r s | e | s] eqn:Er; try discriminate.
  destruct (st_t s) as [t'|] eqn:Et; [|discriminate].
  inversion E; subst p t'; clear E.
  destruct (run_build_shaped _ Er) as (p0 & Hseed & Hs & _).
  destruct Hs as (Hp & _ & _ & q & t0 & bars & _ & _ & Ht & _ & Hsimp & _).
  rewrite Et in Ht; inversion Ht; subst t0.
  exists p0. split; [exact Hseed|]. split; [exact Hp|].
  rewrite Hp. exact Hsimp.
Qed.

(** X9: [build] returns a mesh only in dimension 2 or 3 and only for the
    methods qhull and cgal: in every other case the first iteration finds
    [t] or [bars] unbound, or an earlier step raises. *)
Theorem build_returns_only_when_supported (fuel : nat) (p : list (list F)) (t : list simplex) :
  build sf backends m R g pfix max_iter nscreen seed fuel = Return p t ->
  (dim sf = 2%nat \/ dim sf = 3%nat) /\ (m = Qhull \/ m = Cgal).
Proof.
  unfold build. intros E.
  destruct (run_build sf backends m R g pfix max_iter nscreen seed fuel)
    as [r s | e | s] eqn:Er; try discriminate.
  destruct (run_build_shaped _ Er) as (p0 & _ & Hs & _).
  destruct Hs as (_ & Hdim & Hm & _).
  split; [exact Hdim|]. destruct m; auto. elim Hm; reflexivity.
Qed.

(** X10: when the loop ends after [k] iterations, [count] is [k - 1] and
    [k] is at most the fuel spent; an end by the budget (step 8b) happens
    at iteration [max_iter] exactly, so that [max_iter >= 1]. *)
Theorem budget_exit_is_at_max_iter (fuel : nat) (r : reason) (s : state F) :
  run_build sf backends m R g pfix max_iter nscreen seed fuel = Returned r s ->
  (0 <= st_count s < Z.of_nat fuel)%Z /\
  (r = Budget -> st_count s = (max_iter - 1)%Z /\ (1 <= max_iter <= Z.of_nat fuel)%Z).
Proof.
  intros E. destruct (run_build_shaped _ E) as (p0 & _ & _ & Hc & Hb).
  split; [exact Hc|]. intros Hr. specialize (Hb Hr). lia.
Qed.

End Returned.

Section Duplicates.
Context {F : Type} `{Num F}.
Variable sf : SizingFunction F.
Variable backends : Backends F.
Variable m : method.
Variable max_iter nscreen : Z.
Variable N nfix : nat.

(** X11: when a retriangulation finds duplicate rows, [np.unique] drops
    them and the iteration cannot complete: [p] then has fewer rows than
    the force array of shape [(N, dim)], and line 226 raises unless an
    earlier step already did. *)
Theorem dropped_duplicates_raise (s : state F) :
  moved_far sf (st_p s) (st_pold s) = Ok true ->
  length (np_unique (st_p s)) <> N ->
  exists e, iterate sf backends m max_iter nscreen N nfix s = Raise e.
Proof.
  intros Hfar Hlen.
  destruct (iterate sf backends m max_iter nscreen N nfix s) as [st | e] eqn:Ei;
    [|exists e; reflexivity].
  exfalso. unfold iterate in Ei. inv_bind Ei. destruct a as [[s1 Ftot] d].
  unfold advance in Ea. inv_bind Ea. inv_bind Ea. inv_bind Ea. inv_bind Ea.
  destruct (total_force_rows _ _ _ _ _ Ea2) as [HF _].
  destruct (update_lengths _ _ Ea3) as [Hp _].
  unfold retriangulate in Ea0. rewrite Hfar in Ea0. simpl in Ea0.
  inv_bind Ea0. inv_bind Ea0. inv_bind Ea0. inversion Ea0; subst a.
  simpl in Hp. apply Hlen. rewrite <- HF. exact Hp.
Qed.

End Duplicates.

Lemma returned_mesh_is_well_formed_witness :
  exists p t,
    build half_plane_sizing (fixed_backend two_triangles) Qhull half_rng tt None
          2 5 (Some 1%Z) 2 = Return p t /\
    exists p0,
      seed_points half_plane_sizing None (rng_draw half_rng (rng_seed half_rng 1%Z)) = Ok p0 /\
      length p = length p0 /\
      forall x, In x t -> (dim half_plane_sizing < length x)%nat /\
                          forall i, In i x -> (i < length p)%nat.
Proof.
  eexists. eexists. split; [vm_compute; reflexivity|].
  apply (@returned_mesh_is_well_formed float fl half_plane_sizing
           (fixed_backend two_triangles) Qhull half_rng tt None 2 5 (Some 1%Z) 2).
  vm_compute; reflexivity.
Defined.

Lemma build_returns_only_when_supported_witness :
  exists p t,
    build half_plane_sizing (fixed_backend two_triangles) Cgal half_rng tt None
          2 5 (Some 1%Z) 2 = Return p t /\
    (dim half_plane_sizing = 2%nat \/ dim half_plane_sizing = 3%nat) /\
    (Cgal = Qhull \/ Cgal = Cgal).
Proof.
  eexists. eexists. split; [vm_compute; reflexivity|].
  eapply (@build_returns_only_when_supported float fl half_plane_sizing
            (fixed_backend two_triangles) Cgal half_rng tt None 2 5 (Some 1%Z) 2).
  vm_compute; reflexivity.
Defined.

(** With another method the same call raises. *)
Lemma unknown_method_raises :
  build half_plane_sizing (fixed_backend two_triangles) OtherMethod half_rng tt None
        2 5 (Some 1%Z) 2 = Error UnboundLocalError.
Proof. vm_compute; reflexivity. Qed.

Lemma budget_exit_is_at_max_iter_witness :
  exists s,
    run_build half_plane_sizing (fixed_backend two_triangles) Qhull half_rng tt None
              2 5 (Some 1%Z) 5 = Returned Budget s /\
    (0 <= st_count s < Z.of_nat 5)%Z /\
    (Budget = Budget -> st_count s = (2 - 1)%Z /\ (1 <= 2 <= Z.of_nat 5)%Z).
Proof.
  eexists. split; [vm_compute; reflexivity|].
  apply (@budget_exit_is_at_max_iter float fl half_plane_sizing
           (fixed_backend two_triangles) Qhull half_rng tt None 2 5 (Some 1%Z) 5 Budget).
  vm_compute; reflexivity.
Defined.

Lemma dropped_duplicates_raise_witness :
  moved_far (square_sizing 0.5)
    [[0.5; 0.5]; [0; 0]; [0; 0.5]; [0; 1]; [0.5; 0]; [0.5; 0.5]; [0.5; 1];
     [1; 0]; [1; 0.5]; [1; 1]]%float (Scalar finf) = Ok true /\
  length (np_unique [[0.5; 0.5]; [0; 0]; [0; 0.5]; [0; 1]; [0.5; 0]; [0.5; 0.5]; [0.5; 1];
                     [1; 0]; [1; 0.5]; [1; 1]]%float) <> 10%nat /\
  exists e,
    iterate (square_sizing 0.5) (fixed_backend eight_triangles) Qhull 10 5 10 1
      (initial_state [[0.5; 0.5]; [0; 0]; [0; 0.5]; [0; 1]; [0.5; 0]; [0.5; 0.5]; [0.5; 1];
                      [1; 0]; [1; 0.5]; [1; 1]]%float) = Raise e.
Proof.
  split; [vm_compute; reflexivity|].
  split; [vm_compute; discriminate|].
  apply (@dropped_duplicates_raise float fl (square_sizing 0.5)
           (fixed_backend eight_triangles) Qhull 10 5 10 1
           (initial_state [[0.5; 0.5]; [0; 0]; [0; 0.5]; [0; 1]; [0.5; 0]; [0.5; 0.5];
                           [0.5; 1]; [1; 0]; [1; 0.5]; [1; 1]]%float)).
  - vm_compute; reflexivity.
  - vm_compute; discriminate.
Defined.

(** ** Bars and simplices: lines 172-190 *)

Lemma sort_pair_comm (a b : nat) : sort_pair (a, b) = sort_pair (b, a).
Proof. unfold sort_pair; simpl. rewrite Nat.min_comm, Nat.max_comm. reflexivity. Qed.

Lemma columns_complete (i j : nat) (t : list simplex) (bs : list bar) :
  columns i j t = Ok bs ->
  forall x a b, In x t -> nth_error x i = Some a -> nth_error x j = Some b -> In (a, b) bs.
Proof.
  intros E x a b Hx Hi Hj. destruct (mapM_all_Ok _ _ E _ Hx) as [c [Hc Hin]].
  rewrite Hi, Hj in Hc. inversion Hc; subst c. exact Hin.
Qed.

Ltac from_column Hfrom :=
  match goal with
  | Hc : columns ?i ?j _ = Ok ?bs, Hb : In _ (map sort_pair ?bs) |- _ =>
      apply (Hfrom i j bs); [lia | exact Hc | exact Hb]
  end.

(** X12: the bar set is exactly the set of edges of the simplices: a pair
    is a bar if and only if it is the sorted pair of the vertices at two
    positions [i < j <= dim] of some simplex. *)
Theorem bars_are_the_edges (dm : nat) (t : list simplex) (bars : list bar) (b : bar) :
  make_bars dm t = Ok bars ->
  (In b bars <->
   exists x i j u v,
     In x t /\ (i < j <= dm)%nat /\
     nth_error x i = Some u /\ nth_error x j = Some v /\ b = sort_pair (u, v)).
Proof.
  intros E.
  assert (Hfrom : forall i j bs, (i < j <= dm)%nat \/ (j < i <= dm)%nat ->
            columns i j t = Ok bs -> In b (map sort_pair bs) ->
            exists x i j u v,
              In x t /\ (i < j <= dm)%nat /\
              nth_error x i = Some u /\ nth_error x j = Some v /\ b = sort_pair (u, v)).
  { intros i j bs Hij Ec Hin. apply in_map_iff in Hin. destruct Hin as [[u v] [<- Huv]].
    destruct (columns_In _ _ _ Ec _ _ Huv) as [x [Hx [Hi Hj]]].
    destruct Hij as [Hij | Hji].
    - exists x, i, j, u, v. auto.
    - exists x, j, i, v, u. repeat split; try assumption; try lia. apply sort_pair_comm. }
  assert (Hto : forall i j bs x u v, columns i j t = Ok bs -> In x t ->
            nth_error x i = Some u -> nth_error x j = Some v ->
            In (sort_pair (u, v)) (map sort_pair bs)).
  { intros i j bs x u v Ec Hx Hi Hj. apply in_map.
    eapply columns_complete; eassumption. }
  destruct dm as [|[|[|[|n]]]]; simpl in E; try discriminate.
  - inv_bind E. inv_bind E. inv_bind E. inversion E; subst bars; clear E.
    rewrite unique_rows_In, !map_app, !in_app_iff. split.
    + intros [Hb | [Hb | Hb]]; from_column Hfrom.
    + intros (x & i & j & u & v & Hx & Hij & Hi & Hj & ->).
      assert (Hc : ((i = 0 /\ j = 1) \/ (i = 1 /\ j = 2) \/ (i = 0 /\ j = 2))%nat) by lia.
      destruct Hc as [[-> ->] | [[-> ->] | [-> ->]]].
      * left. eapply Hto; eassumption.
      * right; left. eapply Hto; eassumption.
      * right; right. rewrite sort_pair_comm. eapply Hto; eassumption.
  - inv_bind E. inv_bind E. inv_bind E. inv_bind E. inv_bind E. inv_bind E.
    inversion E; subst bars; clear E.
    rewrite unique_rows_In, !map_app, !in_app_iff. split.
    + intros [Hb | [Hb | [Hb | [Hb | [Hb | Hb]]]]]; from_column Hfrom.
    + intros (x & i & j & u & v & Hx & Hij & Hi & Hj & ->).
      assert (Hc : ((i = 0 /\ j = 1) \/ (i = 1 /\ j = 2) \/ (i = 0 /\ j = 2) \/
                    (i = 0 /\ j = 3) \/ (i = 1 /\ j = 3) \/ (i = 2 /\ j = 3))%nat) by lia.
      destruct Hc as [[-> ->] | [[-> ->] | [[-> ->] | [[-> ->] | [[-> ->] | [-> ->]]]]]].
      * left. eapply Hto; eassumption.
      * right; left. eapply Hto; eassumption.
      * right; right; left. rewrite sort_pair_comm. eapply Hto; eassumption.
      * right; right; right; left. eapply Hto; eassumption.
      * right; right; right; right; left. eapply Hto; eassumption.
      * right; right; right; right; right. eapply Hto; eassumption.
Qed.

Lemma bars_are_the_edges_witness :
  make_bars 2 two_triangles = Ok [(0, 1); (1, 3); (1, 2); (2, 3); (0, 2)]%nat /\
  (In (2, 3)%nat [(0, 1); (1, 3); (1, 2); (2, 3); (0, 2)]%nat <->
   exists x i j u v,
     In x two_triangles /\ (i < j <= 2)%nat /\
     nth_error x i = Some u /\ nth_error x j = Some v /\ (2, 3)%nat = sort_pair (u, v)).
Proof.
  split; [reflexivity|].
  apply (@bars_are_the_edges 2 two_triangles). reflexivity.
Defined.

Lemma mapM_raises {A B : Type} (f : A -> result B) (l : list A) (e0 : exn) :
  (forall a e, f a = Raise e -> e = e0) ->
  (exists a e, In a l /\ f a = Raise e) ->
  mapM f l = Raise e0.
Proof.
  intros Honly [a [e [Ha Hf]]].
  induction l as [|x l IH]; [destruct Ha|]. simpl.
  destruct (f x) as [b|e'] eqn:Ex; simpl.
  - destruct Ha as [-> | Ha]; [congruence|].
    rewrite (IH Ha). reflexivity.
  - rewrite (Honly _ _ Ex). reflexivity.
Qed.

(** X13: a simplex that names a row beyond the point array makes the
    centroid step of line 172 raise [IndexError]. *)
Theorem index_out_of_range_raises {F : Type} `{Num F}
    (sf : SizingFunction F) (p : list (list F)) (t : list simplex) :
  (exists x i, In x t /\ In i x /\ (length p <= i)%nat) ->
  interior_simplices sf p t = Raise IndexError.
Proof.
  intros (x & i & Hx & Hi & Hout).
  assert (Hg : forall s e, gather p s = Raise e -> e = IndexError).
  { intros s e E. unfold gather in E.
    destruct (mapM _ s) as [rows | e'] eqn:Em; [discriminate|].
    inversion E; subst e'.
    assert (Hall : forall l e1, mapM (fun i0 : nat => match nth_error p i0 with
                                                       | Some x0 => Ok x0
                                                       | None => Raise IndexError
                                                       end) l = Raise e1 -> e1 = IndexError).
    { induction l as [|y l IH]; intros e1 E1; simpl in E1; [discriminate|].
      destruct (nth_error p y); simpl in E1; [|inversion E1; reflexivity].
      destruct (mapM _ l) eqn:El; simpl in E1; [discriminate|].
      inversion E1; subst. apply IH; reflexivity. }
    eapply Hall; eassumption. }
  unfold interior_simplices.
  rewrite (@mapM_raises _ _ (centroid sf p) t IndexError); [reflexivity | |].
  - intros s e E. unfold centroid in E.
    destruct (gather p s) as [rows|e'] eqn:Eg; simpl in E; [discriminate|].
    inversion E; subst e'. eapply Hg; eassumption.
  - destruct (centroid sf p x) as [c|e] eqn:Ec.
    + exfalso. unfold centroid in Ec. inv_bind Ec.
      pose proof (gather_in_range _ _ Ea i Hi). lia.
    + exists x, e. split; assumption.
Qed.

Lemma index_out_of_range_raises_witness :
  (exists x i, In x [[0; 1; 7]%nat] /\ In i x /\
               (length [[0; 0]; [0; 1]; [1; 0]; [1; 1]]%float <= i)%nat) /\
  interior_simplices (square_sizing 1) [[0; 0]; [0; 1]; [1; 0]; [1; 1]]%float [[0; 1; 7]%nat]
  = Raise IndexError.
Proof.
  assert (Hex : exists x i, In x [[0; 1; 7]%nat] /\ In i x /\
                            (length [[0; 0]; [0; 1]; [1; 0]; [1; 1]]%float <= i)%nat).
  { exists [0; 1; 7]%nat, 7%nat. simpl. repeat split; auto. }
  split; [exact Hex|].
  apply (@index_out_of_range_raises float fl (square_sizing 1)). exact Hex.
Defined.

(** ** The force step in exact arithmetic: lines 206-226 *)

Lemma add_zero_row (c : Q) (x : list Q) :
  row_eq (vadd x (vscale c (zeros (length x)))) x.
Proof.
  unfold row_eq. induction x as [|a x IH]; simpl; constructor; [|exact IH].
  cbn [fadd fmul fzero Q_arith]. ring.
Qed.

Section ExactForces.
Variable sqrtQ : Q -> Q.
Variable rootQ : nat -> Q -> Q.
Variable infQ : Q.
Variable sf : SizingFunction Q.

Local Abbreviation QN := (Q_num sqrtQ rootQ infQ).

(** X14: in exact arithmetic, lines 225-226 leave the first [nfix] rows of
    [p] where they are: the force on them is cleared, and adding
    [deltat * 0] changes no coordinate. *)
Theorem force_step_keeps_first_rows (N nfix : nat) (p : list (list Q)) (bars : list bar)
    (Ftot p' : list (list Q)) (i : nat) (x : list Q) :
  @total_force Q QN sf N nfix p bars = Ok Ftot ->
  @update Q QN p Ftot = Ok p' ->
  (i < nfix)%nat ->
  nth_error p i = Some x ->
  length x = @dim Q sf ->
  exists x', nth_error p' i = Some x' /\ row_eq x' x.
Proof.
  intros HF Hu Hi Hx Hw.
  destruct (@total_force_rows Q QN sf N nfix p bars Ftot HF) as [HlenF Hz].
  destruct (@update_lengths Q QN p Ftot p' Hu) as [Hp _].
  assert (HiN : (i < N)%nat).
  { rewrite <- HlenF, <- Hp. apply nth_error_Some. rewrite Hx; discriminate. }
  specialize (Hz i Hi HiN).
  unfold update in Hu. rewrite Hp, Nat.eqb_refl in Hu. inversion Hu; subst p'; clear Hu.
  eexists. split; [apply nth_error_map2; eassumption|].
  rewrite <- Hw. apply add_zero_row.
Qed.

End ExactForces.

Lemma force_step_keeps_first_rows_witness :
  exists Ftot p',
    @total_force Q (Q_num (fun x => x) (fun _ x => x) 0)
      {| fd := fun _ => 0%Q; fh := fun _ => 1%Q; hmin := 3 # 10; bbox := [0; 1; 0; 1]%Q |}
      3 1 [[0; 0]; [1 # 2; 0]; [0; 1 # 4]]%Q [(0, 1); (0, 2); (1, 2)]%nat = Ok Ftot /\
    @update Q (Q_num (fun x => x) (fun _ x => x) 0) [[0; 0]; [1 # 2; 0]; [0; 1 # 4]]%Q Ftot
      = Ok p' /\
    exists x', nth_error p' 0 = Some x' /\ row_eq x' [0; 0]%Q.
Proof.
  eexists. eexists.
  split; [vm_compute; reflexivity|].
  split; [vm_compute; reflexivity|].
  eapply (@force_step_keeps_first_rows (fun x => x) (fun _ x => x) 0
            {| fd := fun _ => 0%Q; fh := fun _ => 1%Q; hmin := 3 # 10;
               bbox := [0; 1; 0; 1]%Q |}
            3 1 [[0; 0]; [1 # 2; 0]; [0; 1 # 4]]%Q [(0, 1); (0, 2); (1, 2)]%nat _ _ 0%nat).
  - vm_compute; reflexivity.
  - vm_compute; reflexivity.
  - lia.
  - reflexivity.
  - reflexivity.
Defined.

(** ** The retriangulation test: line 158 *)

Lemma fold_maximum_above (t : Q) (r : list Q) :
  forall x : Q,
  Qltb t (fold_left (@fmaximum Q Q_arith) r x) = true <->
  (t < x)%Q \/ exists y, In y r /\ (t < y)%Q.
Proof.
  induction r as [|y r IH]; intros x; simpl.
  - rewrite Qltb_lt. split; [auto | intros [Hx | [y [[] _]]]; exact Hx].
  - rewrite IH, fmaximum_Q.
    destruct (Qltb x y) eqn:Exy.
    + apply Qltb_lt in Exy. split.
      * intros [Hy | [z [Hz Htz]]]; right; [exists y | exists z]; auto.
      * intros [Hx | [z [[<- | Hz] Htz]]].
        -- left. eapply Qlt_trans; eassumption.
        -- left. exact Htz.
        -- right. exists z. auto.
    + apply Qltb_ge in Exy. split.
      * intros [Hx | [z [Hz Htz]]]; [left; exact Hx | right; exists z; auto].
      * intros [Hx | [z [[<- | Hz] Htz]]].
        -- left. exact Hx.
        -- left. eapply Qlt_le_trans; eassumption.
        -- right. exists z. auto.
Qed.

Section ExactTrigger.
Variable sqrtQ : Q -> Q.
Variable rootQ : nat -> Q -> Q.
Variable infQ : Q.
Variable sf : SizingFunction Q.

Local Abbreviation QT := (Q_num sqrtQ rootQ infQ).

(** X16: in exact arithmetic, the test of line 158 answers the question of
    its comment: when it is evaluated there is at least one point, and it
    holds exactly when some point is farther than [ttol * h0] from where it
    was at the last retriangulation, the distance divided by [h0] as the
    code does. *)
Theorem retriangulation_when_some_point_moved_far
    (p : list (list Q)) (pold : snapshot Q) (b : bool) :
  @moved_far Q QT sf p pold = Ok b ->
  exists ds,
    @dist Q QT p pold = Ok ds /\
    length ds = length p /\ p <> [] /\
    (b = true <-> exists d, In d ds /\ ((1 # 10) < d / hmin sf)%Q).
Proof.
  unfold moved_far. intros E. inv_bind E. inv_bind E.
  inversion E; subst b; clear E.
  exists a. split; [exact Ea|].
  assert (Hlen : length a = length p).
  { unfold dist in Ea. destruct pold as [x | q].
    - inversion Ea; subst a. apply length_map.
    - destruct (Nat.eqb (length p) (length q)) eqn:El; [|discriminate].
      inversion Ea; subst a. apply Nat.eqb_eq in El.
      apply map2_length. exact El. }
  split; [exact Hlen|].
  destruct a as [|d ds]; [discriminate|].
  split; [intros ->; discriminate|].
  simpl in Ea0. inversion Ea0; subst a0; clear Ea0.
  unfold ttol. cbn [fltb fdiv num_arith lit_0_1 QT Q_num Q_arith].
  rewrite fold_maximum_above. unfold h0. cbn [fdiv Q_arith]. split.
  - intros [Hd | [y [Hy Hty]]].
    + exists d. split; [left; reflexivity | exact Hd].
    + apply in_map_iff in Hy. destruct Hy as [z [<- Hz]].
      exists z. split; [right; exact Hz | exact Hty].
  - intros [z [[<- | Hz] Htz]].
    + left. exact Htz.
    + right. exists (z / hmin sf)%Q. split; [|exact Htz].
      apply in_map_iff. exists z. split; [reflexivity | exact Hz].
Qed.

End ExactTrigger.

Lemma retriangulation_when_some_point_moved_far_witness :
  exists ds,
    @dist Q (Q_num (fun x => x) (fun _ x => x) 0) [[0; 0]; [1 # 2; 0]]%Q
      (Rows [[0; 0]; [1 # 4; 0]]%Q) = Ok ds /\
    length ds = 2%nat /\ [[0; 0]; [1 # 2; 0]]%Q <> [] /\
    (true = true <-> exists d, In d ds /\ ((1 # 10) < d / (3 # 10))%Q).
Proof.
  apply (@retriangulation_when_some_point_moved_far (fun x => x) (fun _ x => x) 0
           {| fd := fun _ => 0%Q; fh := fun _ => 1%Q; hmin := 3 # 10;
              bbox := [0; 1; 0; 1]%Q |}
           [[0; 0]; [1 # 2; 0]]%Q (Rows [[0; 0]; [1 # 4; 0]]%Q) true).
  vm_compute; reflexivity.
Defined.
